(** * ERO web automation: orchestration and recovery engine

    A shallow embedding of [src/main.js] (class [WebAutomationSystem] and the
    cycle closure [processAutomation]), of the later version of
    [action-executor.js] (class [ActionExecutor], with [firstOnly] and
    [matchField]) and of the retry contract of [api-service.js].

    Conventions.
    - JSON data is a value of [JSVal]; a plain object is a finite map from
      field names to values.  Field names come from the API schema and from
      the site configuration and are ordinary names, none of them a member
      name of [Object.prototype]; depot codes and other field {e values} are
      arbitrary.  The one place where a data value is used as a property
      name of an object that serves as a map, [grouped[depot]], reads through
      [Object.prototype] as the language does.
    - Strings are sequences of code units below 256.
    - Numbers are the integers that print in plain decimal.
    - Time stamps ([new Date().toISOString()]) are left out of the records.
    - The browser driver, the API client and the timers are collaborators:
      their answers are given by an oracle over the calls made so far, and
      every call is recorded in a trace. *)

From Stdlib Require Import Ascii String.
From stdpp Require Import gmap strings list pretty sorting.


(** * Results of fallible code *)

Record Err := mkErr { err_name : string; err_message : string }.

Inductive Res (A : Type) : Type :=
  | Ok (a : A)
  | Throw (e : Err).
Arguments Ok {A} a.
Arguments Throw {A} e.

Definition Error (m : string) : Err := mkErr "Error" m.
Definition TypeError (m : string) : Err := mkErr "TypeError" m.

Definition is_ok {A} (r : Res A) : bool :=
  match r with Ok _ => true | Throw _ => false end.

(** * JavaScript values *)

Module JS.

#[warnings="-register-all"] Inductive JSVal : Type :=
  | VUndef
  | VNull
  | VBool (b : bool)
  | VNum (z : Z)
  | VStr (s : string)
  | VArr (l : list JSVal)
  | VObj (o : gmap string JSVal).

(** Truthiness, as tested by [if (x)], [!x], [x && y] and [x || y]. *)
Definition truthy (v : JSVal) : bool :=
  match v with
  | VUndef | VNull => false
  | VBool b => b
  | VNum z => negb (z =? 0)%Z
  | VStr s => negb (String.eqb s "")
  | VArr _ | VObj _ => true
  end.

(** [a || b] *)
Definition or_else (a b : JSVal) : JSVal := if truthy a then a else b.

(** [typeof v === 'object'] *)
Definition typeof_object (v : JSVal) : bool :=
  match v with
  | VNull | VArr _ | VObj _ => true
  | _ => false
  end.

(** [v.k] for a field name [k] that no built-in prototype defines. *)
Definition field (v : JSVal) (k : string) : JSVal :=
  match v with
  | VObj o => default VUndef (o !! k)
  | _ => VUndef
  end.

(** [o.k] on a record. *)
Definition prop (o : gmap string JSVal) (k : string) : JSVal :=
  default VUndef (o !! k).

(** ['k' in v], for [v] an object and [k] as above. *)
Definition has_field (v : JSVal) (k : string) : bool :=
  match v with
  | VObj o => bool_decide (is_Some (o !! k))
  | _ => false
  end.

(** The member names every plain object inherits from [Object.prototype]. *)
Definition object_prototype_keys : list string :=
  [ "constructor"; "__proto__"; "hasOwnProperty"; "isPrototypeOf";
    "propertyIsEnumerable"; "toLocaleString"; "toString"; "valueOf";
    "__defineGetter__"; "__defineSetter__"; "__lookupGetter__";
    "__lookupSetter__" ].

Definition inherited (k : string) : bool :=
  bool_decide (k ∈ object_prototype_keys).

Fixpoint join (sep : string) (l : list string) : string :=
  match l with
  | [] => ""
  | [s] => s
  | s :: l' => s +:+ sep +:+ join sep l'
  end.

Fixpoint sequence {A} (l : list (Res A)) : Res (list A) :=
  match l with
  | [] => Ok []
  | r :: l' =>
      match r with
      | Throw e => Throw e
      | Ok a => match sequence l' with
                | Ok q => Ok (a :: q)
                | Throw e => Throw e
                end
      end
  end.

(** The abstract operation ToString, used by template literals, by
    [Array.prototype.join] and when a value is used as a property name.  An
    object whose own field [toString] shadows the inherited method cannot be
    converted (a JSON field is never callable). *)
Fixpoint ToString (v : JSVal) : Res string :=
  match v with
  | VUndef => Ok "undefined"
  | VNull => Ok "null"
  | VBool b => Ok (if b then "true" else "false")
  | VNum z => Ok (pretty z)
  | VStr s => Ok s
  | VArr l =>
      match sequence (map (λ x, match x with
                                | VUndef | VNull => Ok ""
                                | _ => ToString x
                                end) l) with
      | Ok parts => Ok (join "," parts)
      | Throw e => Throw e
      end
  | VObj o =>
      if bool_decide (is_Some (o !! "toString"))
      then Throw (TypeError "Cannot convert object to primitive value")
      else Ok "[object Object]"
  end.

(** The method call [v.toString()]. *)
Definition toString (v : JSVal) : Res string :=
  match v with
  | VUndef =>
      Throw (TypeError "Cannot read properties of undefined (reading 'toString')")
  | VNull =>
      Throw (TypeError "Cannot read properties of null (reading 'toString')")
  | _ => ToString v
  end.

(** [s.includes(t)] *)
Fixpoint includes (s t : string) : bool :=
  String.prefix t s ||
  match s with
  | EmptyString => false
  | String _ s' => includes s' t
  end.

(** White space and line terminators below code unit 256. *)
Definition is_space (c : ascii) : bool :=
  let n := nat_of_ascii c in
  ((9 <=? n) && (n <=? 13) || (n =? 32) || (n =? 160))%nat.

Fixpoint trim_start (s : string) : string :=
  match s with
  | EmptyString => EmptyString
  | String c s' => if is_space c then trim_start s' else s
  end.

Fixpoint trim_end (s : string) : string :=
  match s with
  | EmptyString => EmptyString
  | String c s' =>
      match trim_end s' with
      | EmptyString => if is_space c then EmptyString else String c EmptyString
      | r => String c r
      end
  end.

(** [s.trim()] *)
Definition trim (s : string) : string := trim_end (trim_start s).

End JS.
Export JS.

(** * Log records

    [Logger.info], [Logger.warn] and [Logger.error] forward to the logging
    back end and do not influence control flow.  The model keeps the log
    lines that a property refers to. *)

Inductive LogEntry : Type :=
  | LInfo (message : string)
  | LWarn (message : string) (meta : option JSVal)
  | LError (message : string).

(** * Data grouper: [normalizeDataItem] and [groupByDepot] *)

Abbreviation Item := (gmap string JSVal) (only parsing).
Abbreviation Grouped := (list (string * list (gmap string JSVal))) (only parsing).

Module Grouper.

(** The properties [for (const key in item)] enumerates, with [item[key]]. *)
Definition own_props (item : JSVal) : gmap string JSVal :=
  match item with
  | VObj o => o
  | VArr l => list_to_map (imap (λ i x, (pretty i, x)) l)
  | VStr s =>
      list_to_map
        (imap (λ i c, (pretty i, VStr (String c EmptyString)))
              (list_ascii_of_string s))
  | _ => ∅
  end.

(** [item[key] && typeof item[key] === 'object' && 'v' in item[key]] *)
Definition is_wrapped (v : JSVal) : bool :=
  truthy v && typeof_object v && has_field v "v".

Definition unwrap (v : JSVal) : JSVal :=
  if is_wrapped v then field v "v" else v.

Definition normalizeDataItem (item : JSVal) : gmap string JSVal :=
  map_fold (λ key v normalized, <[key := unwrap v]> normalized) ∅
           (own_props item).

(** The own property [grouped[k]], if there is one. *)
Fixpoint bucket (grouped : Grouped) (k : string) : option (list Item) :=
  match grouped with
  | [] => None
  | (k', b) :: rest => if String.eqb k k' then Some b else bucket rest k
  end.

(** [grouped[k].push(x)] on an own bucket. *)
Fixpoint push (grouped : Grouped) (k : string) (x : Item) : Grouped :=
  match grouped with
  | [] => []
  | (k', b) :: rest =>
      if String.eqb k k' then (k', b ++ [x]) :: rest
      else (k', b) :: push rest k x
  end.

(** What the expression [grouped[k]] evaluates to. *)
Inductive Lookup : Type :=
  | Own (b : list Item)
  | Inherited
  | Missing.

Definition read (grouped : Grouped) (k : string) : Lookup :=
  match bucket grouped k with
  | Some b => Own b
  | None => if inherited k then Inherited else Missing
  end.

(** Property enumeration order: array indices ascending, then the other
    names in creation order. *)
Definition digit (c : ascii) : option N :=
  let n := N_of_ascii c in
  if ((48 <=? n) && (n <=? 57))%N then Some (n - 48)%N else None.

Fixpoint parse_digits (s : string) (acc : N) : option N :=
  match s with
  | EmptyString => Some acc
  | String c s' =>
      match digit c with
      | Some d => parse_digits s' (acc * 10 + d)%N
      | None => None
      end
  end.

Definition array_index (k : string) : option N :=
  match k with
  | EmptyString => None
  | _ =>
      match parse_digits k 0%N with
      | Some n =>
          if (n <? 4294967295)%N && String.eqb (pretty n) k then Some n
          else None
      | None => None
      end
  end.

Definition enumeration_order (ks : list string) : list string :=
  (pretty <$> merge_sort N.le (omap array_index ks))
  ++ filter (λ k, array_index k = None) ks.

(** [Object.keys(grouped)] and [for (const depot in grouped)] *)
Definition keys (grouped : Grouped) : list string :=
  enumeration_order grouped.*1.

Fixpoint group_loop (dataArray : list JSVal) (grouped : Grouped)
    (log : list LogEntry) : Res Grouped * list LogEntry :=
  match dataArray with
  | [] => (Ok grouped, log)
  | item :: rest =>
      let normalizedItem := normalizeDataItem item in
      let depot := prop normalizedItem "DEPOT" in
      if negb (truthy depot) then
        group_loop rest grouped
          (log ++ [LWarn "Item missing DEPOT field, skipping:" (Some item)])
      else
        match ToString depot with
        | Throw e => (Throw e, log)
        | Ok key =>
            match read grouped key with
            | Own _ => group_loop rest (push grouped key normalizedItem) log
            | Inherited =>
                (Throw (TypeError "grouped[depot].push is not a function"), log)
            | Missing =>
                group_loop rest (grouped ++ [(key, [normalizedItem])]) log
            end
        end
  end.

Definition groupByDepot (dataArray : list JSVal)
    : Res Grouped * list LogEntry :=
  match group_loop dataArray [] [] with
  | (Ok grouped, log) =>
      (Ok grouped,
       log ++ [LInfo ("Grouped data by DEPOT: " +:+ join ", " (keys grouped))])
  | (Throw e, log) => (Throw e, log)
  end.

End Grouper.
Export Grouper.

(** * Collaborators: browser driver, API client, timers, result files *)

(** Element handles. *)
Definition Elem := nat.

(** The calls the program makes on its collaborators.  [Fill] and
    [SelectOption] record the configured value together with the data
    context: the argument actually passed is [resolveValue(value, data)], a
    pure and total function of the two. *)
Inductive Call : Type :=
  | NewContext                                    (* browser.newContext(..) *)
  | NewPage                                       (* context.newPage() *)
  | CloseContext                                  (* context.close() *)
  | Goto (url : string)                           (* page.goto(url) *)
  | WaitForLoadState                              (* page.waitForLoadState('networkidle') *)
  | WaitForTimeout (ms : N)                       (* page.waitForTimeout(ms) *)
  | WaitForSelector (sel : string)                (* page.waitForSelector(sel, ..) *)
  | Query (sel : string)                          (* page.$(sel) *)
  | QueryAll (sel : string)                       (* page.$$(sel) *)
  | Click (sel : string)                          (* page.click(sel) *)
  | Fill (sel : string) (v : JSVal) (data : Item) (* page.fill(sel, ..) *)
  | SelectOption (sel : string) (v : JSVal) (data : Item)
  | Hover (sel : string)                          (* page.hover(sel) *)
  | ScrollIntoView (sel : string)                 (* page.evaluate(.. scrollIntoView ..) *)
  | Url                                           (* page.url() *)
  | EvalText (sel : string)                       (* page.$eval(sel, el => el.textContent) *)
  | ElemQuery (e : Elem) (sel : string)           (* element.$(sel) *)
  | ElemText (e : Elem)                           (* element.textContent() *)
  | ElemClick (e : Elem)                          (* element.click() *)
  | ElemDisplay (e : Elem)                        (* getComputedStyle(el).display *)
  | GetReleaseOrderData                           (* apiService.getReleaseOrderData() *)
  | Sleep (ms : N).                               (* new Promise(r => setTimeout(r, ms)) *)

(** What the collaborators answer, as a function of the calls made before
    and of the call itself.  [act] gives the error a call without result
    rejects with, if any. *)
Record Surface : Type := {
  act : list Call → Call → option Err;
  find : list Call → Call → Res (option Elem);
  find_all : list Call → string → Res (list Elem);
  text_content : list Call → Elem → Res (option string);
  eval_text : list Call → string → Res string;
  display : list Call → Elem → Res string;
  url : list Call → string;
  release_order_data : list Call → JSVal
}.

(** One record of the failed file and of the success list. *)
Record FailedItem : Type := {
  f_depot : string;
  f_releaseOrderID : JSVal;
  f_releaseOrderNumber : JSVal;
  f_reason : string
}.

Record SuccessItem : Type := {
  s_depot : string;
  s_releaseOrderID : JSVal;
  s_releaseOrderNumber : JSVal
}.

(** The state a cycle works on.  A result file holds its [data] array, or
    the error [fs.readJson] throws on it; writing a file succeeds. *)
Record World : Type := mkWorld {
  trace : list Call;
  failedFile : Res (list FailedItem);
  successFile : Res (list SuccessItem);
  successList : list SuccessItem;
  logs : list LogEntry
}.

Definition set_trace (t : list Call) (w : World) : World :=
  mkWorld t (failedFile w) (successFile w) (successList w) (logs w).
Definition set_failedFile (f : Res (list FailedItem)) (w : World) : World :=
  mkWorld (trace w) f (successFile w) (successList w) (logs w).
Definition set_successFile (f : Res (list SuccessItem)) (w : World) : World :=
  mkWorld (trace w) (failedFile w) f (successList w) (logs w).
Definition set_successList (l : list SuccessItem) (w : World) : World :=
  mkWorld (trace w) (failedFile w) (successFile w) l (logs w).
Definition set_logs (l : list LogEntry) (w : World) : World :=
  mkWorld (trace w) (failedFile w) (successFile w) (successList w) l.

(** * Asynchronous code: state and exceptions *)

Definition M (A : Type) : Type := World → Res A * World.

Definition ret {A} (a : A) : M A := λ w, (Ok a, w).

Definition throw {A} (e : Err) : M A := λ w, (Throw e, w).

Definition bind {A B} (m : M A) (k : A → M B) : M B :=
  λ w, match m w with
       | (Ok a, w') => k a w'
       | (Throw e, w') => (Throw e, w')
       end.

(** [try { m } catch (error) { h error }] *)
Definition try_catch {A} (m : M A) (h : Err → M A) : M A :=
  λ w, match m w with
       | (Ok a, w') => (Ok a, w')
       | (Throw e, w') => h e w'
       end.

(** [try { m } finally { f }] *)
Definition finally {A} (m : M A) (f : M unit) : M A :=
  λ w, match m w with
       | (r, w') =>
           match f w' with
           | (Ok _, w'') => (r, w'')
           | (Throw e, w'') => (Throw e, w'')
           end
       end.

(** [p.catch(() => a)] *)
Definition or_default {A} (m : M A) (a : A) : M A :=
  try_catch m (λ _, ret a).

Definition lift {A} (r : Res A) : M A := λ w, (r, w).

Definition log (e : LogEntry) : M unit :=
  λ w, (Ok tt, set_logs (logs w ++ [e]) w).

Declare Scope m_scope.
Delimit Scope m_scope with M.
Notation "x <- m ;; k" := (bind m (λ x, k))
  (at level 100, m at next level, right associativity) : m_scope.
Notation "m ;; k" := (bind m (λ _, k))
  (at level 100, right associativity) : m_scope.
Open Scope m_scope.

(** * The declarative actions of the site configuration *)

Record MatchField : Type := {
  mf_value : string;       (* matchField.value: the data field to compare with *)
  mf_selector : string     (* matchField.selector: the nested element to read *)
}.

Record Action : Type := {
  type : string;
  selector : string;
  value : JSVal;
  print_url : bool;
  firstOnly : bool;
  matchField : option MatchField;
  typeAction : option string;
  delay : N                (* 0 when absent *)
}.

Record SiteConfig : Type := {
  site_url : string;
  actions : list Action
}.

Section Engine.

Context (sf : Surface).

(** ** Driver calls *)

Definition record (c : Call) (w : World) : World :=
  set_trace (trace w ++ [c]) w.

Definition call (c : Call) : M unit :=
  λ w, match act sf (trace w) c with
       | None => (Ok tt, record c w)
       | Some e => (Throw e, record c w)
       end.

Definition page_query (sel : string) : M (option Elem) :=
  λ w, (find sf (trace w) (Query sel), record (Query sel) w).

Definition page_query_all (sel : string) : M (list Elem) :=
  λ w, (find_all sf (trace w) sel, record (QueryAll sel) w).

Definition elem_query (e : Elem) (sel : string) : M (option Elem) :=
  λ w, (find sf (trace w) (ElemQuery e sel), record (ElemQuery e sel) w).

Definition elem_text (e : Elem) : M (option string) :=
  λ w, (text_content sf (trace w) e, record (ElemText e) w).

Definition page_eval_text (sel : string) : M string :=
  λ w, (eval_text sf (trace w) sel, record (EvalText sel) w).

Definition elem_display (e : Elem) : M string :=
  λ w, (display sf (trace w) e, record (ElemDisplay e) w).

Definition page_url : M string :=
  λ w, (Ok (url sf (trace w)), record Url w).

Definition getReleaseOrderData : M JSVal :=
  λ w, (Ok (release_order_data sf (trace w)), record GetReleaseOrderData w).

(** A timer promise resolves; it cannot reject. *)
Definition sleep (ms : N) : M unit :=
  λ w, (Ok tt, record (Sleep ms) w).

(** ** Action interpreter: [ActionExecutor.executeAction] *)

(** [const elementExists = await page.$(selector).catch(() => null);
     if (!elementExists) throw new Error(`Selector not found: ${selector}`);
     await page.waitForSelector(selector, { timeout, state: 'visible' });] *)
Definition require_visible (sel : string) : M unit :=
  elementExists <- or_default (page_query sel) None ;;
  match elementExists with
  | None => throw (Error ("Selector not found: " +:+ sel))
  | Some _ => call (WaitForSelector sel)
  end.

(** The loop [for (const element of elements)] of the [matchField] branch:
    the first element whose nested field has a non-empty text that, once
    trimmed, includes [matchValue].  An element whose inspection throws is
    passed over. *)
Fixpoint find_match (mf : MatchField) (matchValue : string)
    (elements : list Elem) : M (option Elem) :=
  match elements with
  | [] => ret None
  | element :: rest =>
      matches <-
        try_catch
          (fieldElement <- elem_query element (mf_selector mf) ;;
           match fieldElement with
           | Some fe =>
               fieldValue <- elem_text fe ;;
               ret (match fieldValue with
                    | Some t =>
                        negb (String.eqb t "") && includes (trim t) matchValue
                    | None => false
                    end)
           | None => ret false
           end)
          (λ _, ret false) ;;
      if matches then ret (Some element) else find_match mf matchValue rest
  end.

Definition print_url_after (a : Action) : M unit :=
  if print_url a then (_ <- page_url ;; ret tt) else ret tt.

Definition click_action (a : Action) (data : Item) : M unit :=
  require_visible (selector a) ;;
  (if firstOnly a then
     elements <- page_query_all (selector a) ;;
     match elements with
     | first :: _ =>
         targetElement <-
           match matchField a with
           | Some mf =>
               matchValue <- lift (toString (prop data (mf_value mf))) ;;
               found <- find_match mf matchValue elements ;;
               ret (default first found)
           | None => ret first
           end ;;
         call (ElemClick targetElement)
     | [] => throw (Error ("No elements found for selector: " +:+ selector a))
     end
   else call (Click (selector a))) ;;
  or_default (call WaitForLoadState) tt ;;
  print_url_after a.

(** The [catch] of [executeAction] logs and rethrows, so the function is
    its [switch]. *)
Definition executeAction (a : Action) (data : Item) : M unit :=
  if String.eqb (type a) "click" then click_action a data
  else if String.eqb (type a) "input" then
    require_visible (selector a) ;;
    call (Fill (selector a) (value a) data) ;;
    print_url_after a
  else if String.eqb (type a) "select" then
    require_visible (selector a) ;;
    call (SelectOption (selector a) (value a) data)
  else if String.eqb (type a) "wait" then
    require_visible (selector a)
  else if String.eqb (type a) "scroll" then
    scrollExists <- or_default (page_query (selector a)) None ;;
    match scrollExists with
    | None => throw (Error ("Selector not found: " +:+ selector a))
    | Some _ => call (ScrollIntoView (selector a))
    end
  else if String.eqb (type a) "hover" then
    require_visible (selector a) ;;
    call (Hover (selector a))
  else
    log (LWarn ("Unknown action type: " +:+ type a) None).

(** ** Popup classifier: [checkAndHandlePopup] *)

Inductive Verdict : Type := VSuccess | VError | VWarning.

Definition verdict_name (v : Verdict) : string :=
  match v with
  | VSuccess => "success"
  | VError => "error"
  | VWarning => "warning"
  end.

(** [checkpopup === 'error' || checkpopup === 'warning'] *)
Definition is_failure (v : Verdict) : bool :=
  match v with
  | VError | VWarning => true
  | VSuccess => false
  end.

(** One of the three blocks of [checkAndHandlePopup]: the container, the
    message element, the close button, the log line and the verdict. *)
Definition check_popup (container message_sel close_sel : string)
    (entry : string → LogEntry) (v : Verdict) : M (option Verdict) :=
  popup <- page_query container ;;
  match popup with
  | Some el =>
      shown <- elem_display el ;;
      if String.eqb shown "block" then
        message <- or_default (page_eval_text message_sel) "N/A" ;;
        log (entry message) ;;
        or_default (call (Click close_sel)) tt ;;
        ret (Some v)
      else ret None
  | None => ret None
  end.

Definition checkAndHandlePopup : M (option Verdict) :=
  try_catch
    (s <- check_popup "#popup-Success" "#spn_SuccessMessage"
            "#btn_SuccessPopupClose"
            (λ m, LInfo ("Success Popup: " +:+ m)) VSuccess ;;
     match s with
     | Some v => ret (Some v)
     | None =>
         e <- check_popup "#popup-Error" "#p_ErrorPopupMessage"
                "#btn_ErrorPopupClose"
                (λ m, LError ("Error Popup: " +:+ m)) VError ;;
         match e with
         | Some v => ret (Some v)
         | None =>
             check_popup "#popup-Warn" "#p_WarningPopupMessage"
               "#btn_WarnPopupClose"
               (λ m, LWarn ("Warning Popup: " +:+ m) None) VWarning
         end
     end)
    (λ _, log (LError "Error checking popup:") ;; ret None).

(** ** Result ledger *)

(** [initResultFiles]: both files are written with an empty [data] array. *)
Definition initResultFiles : M unit :=
  λ w, (Ok tt, set_successFile (Ok []) (set_failedFile (Ok []) w)).

(** [appendFailedToFile]: read, push, write back; a failure is logged and
    swallowed. *)
Definition appendFailedToFile (failedItem : FailedItem) : M unit :=
  λ w, match failedFile w with
       | Ok data => (Ok tt, set_failedFile (Ok (data ++ [failedItem])) w)
       | Throw _ =>
           (Ok tt, set_logs (logs w ++ [LError "Error appending failed item:"]) w)
       end.

(** [getFailedROs] *)
Definition getFailedROs : M (list JSVal) :=
  λ w, match failedFile w with
       | Ok data => (Ok (f_releaseOrderNumber <$> data), w)
       | Throw _ =>
           (Ok [], set_logs (logs w ++ [LError "Error reading failed file:"]) w)
       end.

(** [saveSuccessToFile]: overwrite with the in-memory success list. *)
Definition saveSuccessToFile : M unit :=
  λ w, (Ok tt, set_successFile (Ok (successList w)) w).

(** [successList.push(..)] *)
Definition push_success (s : SuccessItem) : M unit :=
  λ w, (Ok tt, set_successList (successList w ++ [s]) w).

(** [printResultSummary] reads the failed file without a guard. *)
Definition printResultSummary : M unit :=
  λ w, match failedFile w with
       | Ok _ => (Ok tt, w)
       | Throw e => (Throw e, w)
       end.

(** ** Retrying fetch: [fetchDataWithRetry] *)

(** [testDataArr && testDataArr.data] *)
Definition usable (testDataArr : JSVal) : bool :=
  truthy testDataArr && truthy (field testDataArr "data").

(** The iterations of [for (attempt = 1; attempt <= maxRetries; attempt++)]
    that remain; [todo] is [maxRetries - attempt + 1]. *)
Fixpoint fetch_attempts (todo : nat) (testDataArr : JSVal) : M JSVal :=
  match todo with
  | O => ret testDataArr
  | S todo' =>
      testDataArr <- getReleaseOrderData ;;
      if usable testDataArr then ret testDataArr
      else
        (match todo' with
         | O => ret tt
         | S _ => sleep 10000
         end) ;;
        fetch_attempts todo' testDataArr
  end.

Definition fetchDataWithRetry (maxRetries : nat) : M JSVal :=
  fetch_attempts maxRetries VNull.

(** ** Session orchestrator *)

(** [{ account, ...item }] *)
Definition with_account (account : JSVal) (item : Item) : Item :=
  item ∪ {["account" := account]}.

(** [if (action.delay) await page.waitForTimeout(action.delay);] *)
Definition pause (action : Action) : M unit :=
  if (delay action =? 0)%N then ret tt
  else call (WaitForTimeout (delay action)).

(** [processLogin] *)
Fixpoint login_actions (acts : list Action) (loginData : Item) : M unit :=
  match acts with
  | [] => ret tt
  | action :: rest =>
      if bool_decide (typeAction action = Some "login") then
        executeAction action loginData ;;
        pause action ;;
        _ <- checkAndHandlePopup ;;
        login_actions rest loginData
      else login_actions rest loginData
  end.

Definition processLogin (siteConfig : SiteConfig) (loginData : Item) : M unit :=
  login_actions (actions siteConfig) loginData.

(** The action loop of [processReleaseOrder]; the result is [errorReason]
    when [actionFailed] was set, and the loop was left, at some action. *)
Fixpoint release_order_actions (acts : list Action) (roData : Item)
    : M (option string) :=
  match acts with
  | [] => ret None
  | action :: rest =>
      if bool_decide (typeAction action = Some "roData") then
        failed <-
          try_catch
            (executeAction action roData ;;
             pause action ;;
             checkpopup <- checkAndHandlePopup ;;
             match checkpopup with
             | Some v =>
                 if is_failure v
                 then ret (Some ("Popup " +:+ verdict_name v +:+ " detected"))
                 else ret None
             | None => ret None
             end)
            (λ error,
               ret (Some (if String.eqb (err_message error) ""
                          then "Action execution failed"
                          else err_message error))) ;;
        match failed with
        | Some errorReason => ret (Some errorReason)
        | None => release_order_actions rest roData
        end
      else release_order_actions rest roData
  end.

Definition ro_number (item : Item) : JSVal :=
  or_else (prop item "releaseOrderNumber") (VStr "N/A").

Definition ro_id (item : Item) : JSVal :=
  or_else (prop item "ID") (VStr "-1").

Definition failed_item (depot : string) (item : Item) (reason : string)
    : FailedItem :=
  {| f_depot := depot;
     f_releaseOrderID := ro_id item;
     f_releaseOrderNumber := ro_number item;
     f_reason := reason |}.

Definition success_item (depot : string) (item : Item) : SuccessItem :=
  {| s_depot := depot;
     s_releaseOrderID := ro_id item;
     s_releaseOrderNumber := ro_number item |}.

Definition processReleaseOrder (siteConfig : SiteConfig) (roData : Item)
    (depot : string) : M unit :=
  failed <- release_order_actions (actions siteConfig) roData ;;
  match failed with
  | Some errorReason => appendFailedToFile (failed_item depot roData errorReason)
  | None => push_success (success_item depot roData)
  end.

(** [Set.prototype.has] compares with SameValueZero: primitives by value,
    objects by identity.  Two objects are never reported the same here;
    the statements about reconciliation are for release-order numbers that
    are primitives. *)
Definition same_value_zero (a b : JSVal) : bool :=
  match a, b with
  | VUndef, VUndef | VNull, VNull => true
  | VBool x, VBool y => Bool.eqb x y
  | VNum x, VNum y => (x =? y)%Z
  | VStr x, VStr y => String.eqb x y
  | _, _ => false
  end.

Definition has (processedROs : list JSVal) (roNumber : JSVal) : bool :=
  existsb (same_value_zero roNumber) processedROs.

(** [for (const item of grouped[depot])]; iterating [undefined] throws. *)
Definition items_of (grouped : Grouped) (depot : string) : M (list Item) :=
  match bucket grouped depot with
  | Some items => ret items
  | None => throw (TypeError "grouped[depot] is not iterable")
  end.

Fixpoint for_each {A} (l : list A) (body : A → M unit) : M unit :=
  match l with
  | [] => ret tt
  | x :: rest => body x ;; for_each rest body
  end.

(** [markRemainingAsFailed] *)
Definition markRemainingAsFailed (grouped : Grouped) (depot : string)
    : M unit :=
  succeeded <- (λ w, (Ok (s_releaseOrderNumber <$> successList w), w)) ;;
  failedROs <- getFailedROs ;;
  let processedROs := succeeded ++ failedROs in
  items <- items_of grouped depot ;;
  for_each items (λ item,
    if has processedROs (ro_number item) then ret tt
    else appendFailedToFile
           (failed_item depot item "Browser/Page closed unexpectedly")).

(** [processDepot].  [depot] is a key of [grouped], so it does not name a
    member of [Object.prototype] and [accounts[depot]] is an own field. *)
Definition processDepot (depot : string) (grouped : Grouped)
    (accounts : Item) (siteConfig : SiteConfig) : M unit :=
  let account := prop accounts depot in
  if negb (truthy account) then
    items <- items_of grouped depot ;;
    for_each items (λ item,
      appendFailedToFile
        (failed_item depot item "No account configured for depot"))
  else
    first <- (match bucket grouped depot with
              | Some items => ret (default ∅ (head items))
              | None =>
                  throw (TypeError
                    "Cannot read properties of undefined (reading '0')")
              end) ;;
    let loginData := with_account account first in
    call (Goto (site_url siteConfig)) ;;
    call WaitForLoadState ;;
    processLogin siteConfig loginData ;;
    items <- items_of grouped depot ;;
    for_each items (λ item,
      processReleaseOrder siteConfig (with_account account item) depot) ;;
    call (WaitForTimeout 1000) ;;
    executeAction
      {| type := "click"; selector := ".btn.btn-logout.logout-btn";
         value := VUndef; print_url := false; firstOnly := false;
         matchField := None; typeAction := None; delay := 1000 |}
      loginData ;;
    call (WaitForTimeout 1000).

(** ** Cycle runner: the body of [processAutomation] *)

(** The test of the [catch] in the depot loop for a closed browser. *)
Definition is_closed_error (error : Err) : bool :=
  let m := err_message error in
  negb (String.eqb m "") &&
  (includes m "Target page, context or browser has been closed"
   || includes m "Target closed"
   || includes m "Browser has been closed").

Inductive Flow : Type := Continue | Break.

(** [try { await context.close(); } catch (e) { }] *)
Definition close_context : M unit :=
  or_default (call CloseContext) tt.

(** One iteration of [for (const depot in grouped)]. *)
Definition depot_iteration (depot : string) (grouped : Grouped)
    (accounts : Item) (siteConfig : SiteConfig) : M Flow :=
  call NewContext ;;
  call NewPage ;;
  finally
    (try_catch
       (processDepot depot grouped accounts siteConfig ;; ret Continue)
       (λ error,
          if is_closed_error error then
            saveSuccessToFile ;;
            markRemainingAsFailed grouped depot ;;
            close_context ;;
            ret Break
          else
            items <- items_of grouped depot ;;
            for_each items (λ item,
              appendFailedToFile
                (failed_item depot item
                   ("Depot processing error: " +:+ err_message error))) ;;
            ret Continue))
    close_context.

Fixpoint depot_loop (depots : list string) (grouped : Grouped)
    (accounts : Item) (siteConfig : SiteConfig) : M unit :=
  match depots with
  | [] => ret tt
  | depot :: rest =>
      flow <- depot_iteration depot grouped accounts siteConfig ;;
      match flow with
      | Break => ret tt
      | Continue => depot_loop rest grouped accounts siteConfig
      end
  end.

(** [testDataArr.data.length === 0] *)
Definition length_is_zero (data : JSVal) : bool :=
  match data with
  | VArr [] => true
  | VObj o => match o !! "length" with Some (VNum 0) => true | _ => false end
  | _ => false
  end.

(** The values [for (const item of data)] visits. *)
Definition iterate (data : JSVal) : Res (list JSVal) :=
  match data with
  | VArr l => Ok l
  | VStr s => Ok ((λ c, VStr (String c EmptyString)) <$> list_ascii_of_string s)
  | _ => Throw (TypeError "dataArray is not iterable")
  end.

(** [groupByDepot] as a step of the cycle. *)
Definition group (data : JSVal) : M Grouped :=
  dataArray <- lift (iterate data) ;;
  λ w, let '(r, lines) := groupByDepot dataArray in
       (r, set_logs (logs w ++ lines) w).

(** [processAutomation]; the grouped snapshot written by
    [saveGroupedDataToFile] is not part of the state. *)
Definition processAutomation (accounts : Item) (siteConfig : SiteConfig)
    : M unit :=
  testDataArr <- fetchDataWithRetry 3 ;;
  (* if (!testDataArr || !testDataArr.data) return; *)
  if negb (usable testDataArr) then ret tt
  else if length_is_zero (field testDataArr "data") then ret tt
  else
    grouped <- group (field testDataArr "data") ;;
    initResultFiles ;;
    (λ w, (Ok tt, set_successList [] w)) ;;
    depot_loop (keys grouped) grouped accounts siteConfig ;;
    saveSuccessToFile ;;
    printResultSummary.

End Engine.

(** * Cycle scheduling: [main] and [setupAutoRun]

    [main] awaits one run of [processAutomation] and then installs the
    interval timer, whose callback awaits [processAutomation] again inside
    a [try].  The
    event loop interleaves timer callbacks with the steps of the runs in
    flight.  [processRealtimeData], the entry point of the file watcher, is
    the one that tests and sets [this.isRunning]. *)

Module Scheduler.

Inductive Event : Type :=
  | Startup        (* main calls processAutomation() *)
  | Tick           (* the interval timer fires and its callback starts *)
  | Finish (ok : bool)  (* a run of processAutomation returns, or throws *)
  | DataChange     (* the watcher calls processRealtimeData(data) *)
  | RealtimeDone.  (* the body of processRealtimeData reaches its finally *)

Record State : Type := mkState {
  started : bool;       (* main has reached its first run *)
  installed : bool;     (* setInterval has been called *)
  cycles : nat;         (* runs of processAutomation in flight *)
  isRunning : bool;     (* this.isRunning *)
  realtime : nat        (* bodies of processRealtimeData in flight *)
}.

Definition initial : State := mkState false false 0 false 0.

(** The effect of an event; [None] when the event cannot occur. *)
Definition step (s : State) (e : Event) : option State :=
  match e with
  | Startup =>
      if started s then None
      else Some (mkState true false (S (cycles s)) (isRunning s) (realtime s))
  | Tick =>
      if installed s
      then Some (mkState (started s) true (S (cycles s)) (isRunning s)
                         (realtime s))
      else None
  | Finish ok =>
      match cycles s with
      | O => None
      | S n =>
          (* main reaches setupAutoRun() when its first run has returned;
             a throw of that run rejects main instead *)
          Some (mkState (started s) (installed s || ok) n (isRunning s)
                        (realtime s))
      end
  | DataChange =>
      if isRunning s then Some s
      else Some (mkState (started s) (installed s) (cycles s) true
                         (S (realtime s)))
  | RealtimeDone =>
      match realtime s with
      | O => None
      | S n => Some (mkState (started s) (installed s) (cycles s) false n)
      end
  end.

Fixpoint run (s : State) (events : list Event) : option State :=
  match events with
  | [] => Some s
  | e :: rest =>
      match step s e with
      | Some s' => run s' rest
      | None => None
      end
  end.

End Scheduler.

(** * Notions used in the statements *)

(** The depot property name an item is filed under, if it is filed. *)
Definition key_of (item : JSVal) : option string :=
  let depot := prop (normalizeDataItem item) "DEPOT" in
  if truthy depot then
    match ToString depot with
    | Ok k => Some k
    | Throw _ => None
    end
  else None.

(** An item [groupByDepot] passes over. *)
Definition skipped (item : JSVal) : bool :=
  negb (truthy (prop (normalizeDataItem item) "DEPOT")).

(** The normalized items filed under [k], in input order. *)
Definition members (k : string) (dataArray : list JSVal) : list Item :=
  normalizeDataItem <$> filter (λ item, key_of item = Some k) dataArray.

(** The warnings for the items passed over, in input order. *)
Definition warnings (dataArray : list JSVal) : list LogEntry :=
  (λ item, LWarn "Item missing DEPOT field, skipping:" (Some item))
    <$> filter (λ item, skipped item = true) dataArray.

(** A bucket extended by the items that arrive for it. *)
Definition extend (old : option (list Item)) (new : list Item)
    : option (list Item) :=
  match old, new with
  | Some b, _ => Some (b ++ new)
  | None, [] => None
  | None, _ => Some new
  end.

(** ** Properties of computations *)

(** The computation leaves both result files and the success list alone. *)
Definition keeps_ledger {A} (m : M A) : Prop :=
  ∀ w r w', m w = (r, w') →
    failedFile w' = failedFile w
    ∧ successList w' = successList w
    ∧ successFile w' = successFile w.

(** The computation returns; it does not throw. *)
Definition never_throws {A} (m : M A) : Prop :=
  ∀ w, ∃ a w', m w = (Ok a, w').

(** The clicks among the calls of a trace. *)
Definition is_click (c : Call) : bool :=
  match c with
  | ElemClick _ | Click _ => true
  | _ => false
  end.

Definition clicks (t : list Call) : list Call :=
  filter (λ c, is_click c = true) t.

(** A page whose elements and texts do not change while it is inspected. *)
Definition still (sf : Surface) : Prop :=
  (∀ tr c, find sf tr c = find sf [] c)
  ∧ (∀ tr e, text_content sf tr e = text_content sf [] e).

(** The test [find_match] applies to one element of a still page. *)
Definition qualifies (sf : Surface) (mf : MatchField) (matchValue : string)
    (element : Elem) : bool :=
  match find sf [] (ElemQuery element (mf_selector mf)) with
  | Ok (Some fe) =>
      match text_content sf [] fe with
      | Ok (Some t) => negb (String.eqb t "") && includes (trim t) matchValue
      | _ => false
      end
  | _ => false
  end.

(** A release-order number that [Set.prototype.has] compares by value. *)
Definition primitive (v : JSVal) : bool :=
  match v with
  | VArr _ | VObj _ => false
  | _ => true
  end.

(** The release-order numbers [markRemainingAsFailed] collects. *)
Definition processed (w : World) (data : list FailedItem) : list JSVal :=
  (s_releaseOrderNumber <$> successList w) ++ (f_releaseOrderNumber <$> data).

(** The calls of [n] attempts that all fail, with the delays between them. *)
Fixpoint retry_calls (n : nat) : list Call :=
  match n with
  | O => []
  | S n' =>
      GetReleaseOrderData ::
      match n' with
      | O => []
      | S _ => Sleep 10000 :: retry_calls n'
      end
  end.

Definition is_fetch (c : Call) : bool :=
  match c with GetReleaseOrderData => true | _ => false end.

Definition is_sleep (c : Call) : bool :=
  match c with Sleep _ => true | _ => false end.

Definition count (p : Call → bool) (t : list Call) : nat :=
  length (filter (λ c, p c = true) t).

(** What the scheduler maintains: the body of [processRealtimeData] runs at
    most once at a time, and until the timer is installed at most one cycle
    is in flight. *)
Definition guarded (s : Scheduler.State) : Prop :=
  (Scheduler.isRunning s = true → Scheduler.realtime s = 1)
  ∧ (Scheduler.isRunning s = false → Scheduler.realtime s = 0)
  ∧ (Scheduler.installed s = false → Scheduler.cycles s ≤ 1)
  ∧ (Scheduler.started s = false →
     Scheduler.cycles s = 0 ∧ Scheduler.installed s = false).

(** ** Scenarios *)

Module Scenario.


(** The state at the start of a cycle, once the result files exist. *)
Definition start : World := mkWorld [] (Ok []) (Ok []) [] [].

Definition order (depot ro : string) (id : Z) : gmap string JSVal :=
  {["DEPOT" := VStr depot; "releaseOrderNumber" := VStr ro; "ID" := VNum id]}.

Definition enter_number : Action :=
  {| type := "input"; selector := "#releaseOrderNumber";
     value := VStr "data.releaseOrderNumber"; print_url := false;
     firstOnly := false; matchField := None; typeAction := Some "roData";
     delay := 0 |}.

Definition site : SiteConfig :=
  {| site_url := "https://ero.example/login"; actions := [enter_number] |}.

Definition accounts : gmap string JSVal :=
  {["D1" := VObj {["username" := VStr "u1"]}]}.

(** A driver on which no call fails and no popup shows: [present] tells
    which selectors [page.$] finds, [data] is what the API answers. *)
Definition page (present : string → option Elem) (data : JSVal) : Surface :=
  {| act := λ _ _, None;
     find := λ _ c, match c with
                    | Query s => Ok (present s)
                    | _ => Ok None
                    end;
     find_all := λ _ _, Ok [];
     text_content := λ _ _, Ok None;
     eval_text := λ _ _, Ok "";
     display := λ _ _, Ok "none";
     url := λ _, "";
     release_order_data := λ _, data |}.

(** The order form is there; the logout button is not. *)
Definition no_logout : Surface :=
  page (λ s, if String.eqb s "#releaseOrderNumber" then Some 0 else None)
       (VObj {["data" := VArr [VObj (order "D1" "RO1" 7)]]}).


(** A result list: row [i] (from 1) has the nested element [100 + i], whose
    text is the [i]-th of [texts]. *)
Definition rows (texts : list string) : Surface :=
  {| act := λ _ _, None;
     find := λ _ c, match c with
                    | Query _ => Ok (Some 0)
                    | ElemQuery e _ => Ok (Some (100 + e))
                    | _ => Ok None
                    end;
     find_all := λ _ _, Ok (seq 1 (length texts));
     text_content := λ _ e, Ok (texts !! (e - 101));
     eval_text := λ _ _, Ok "";
     display := λ _ _, Ok "none";
     url := λ _, "";
     release_order_data := λ _, VNull |}.

Definition by_number : MatchField :=
  {| mf_value := "releaseOrderNumber"; mf_selector := ".ro-number" |}.

Definition pick : Action :=
  {| type := "click"; selector := ".result-row"; value := VUndef;
     print_url := false; firstOnly := true; matchField := Some by_number;
     typeAction := Some "roData"; delay := 0 |}.

(** An API client that answers [null] twice and then a payload. *)
Definition payload : JSVal :=
  VObj {["data" := VArr [VObj (order "D1" "RO1" 7)]]}.

Definition flaky : Surface :=
  {| act := λ _ _, None;
     find := λ _ _, Ok None;
     find_all := λ _ _, Ok [];
     text_content := λ _ _, Ok None;
     eval_text := λ _ _, Ok "";
     display := λ _ _, Ok "none";
     url := λ _, "";
     release_order_data :=
       λ t, if (count is_fetch t <? 2)%nat then VNull else payload |}.

(** An API client whose every answer is an object without [data]. *)
Definition no_data : Surface := page (λ _, None) (VObj ∅).

(** Five orders of one depot, the first two of them in the success list. *)
Definition five : list (gmap string JSVal) :=
  [order "D1" "RO1" 1; order "D1" "RO2" 2; order "D1" "RO3" 3;
   order "D1" "RO4" 4; order "D1" "RO5" 5].

Definition two_done : World :=
  mkWorld [] (Ok []) (Ok [])
    [success_item "D1" (order "D1" "RO1" 1);
     success_item "D1" (order "D1" "RO2" 2)] [].

End Scenario.


(** * Value resolution: [ActionExecutor.resolveValue]

    The value an [input] or [select] action passes to the driver is
    [resolveValue(value, data)]. *)

(** [s.split(sep)] for a one-character separator. *)
Fixpoint split (sep : ascii) (s : string) : list string :=
  match s with
  | EmptyString => [EmptyString]
  | String c s' =>
      if Ascii.eqb c sep then EmptyString :: split sep s'
      else match split sep s' with
           | [] => [String c EmptyString]
           | part :: parts => String c part :: parts
           end
  end.

(** [s.substring(n)] *)
Fixpoint substring_from (n : nat) (s : string) : string :=
  match n, s with
  | O, _ => s
  | S n', String _ s' => substring_from n' s'
  | S _, EmptyString => EmptyString
  end.

(** [current?.[key]] on a JSON value.  A record answers with its own
    field, an array with an element or its length.  [None] stands for what
    is not a JSON value or is not followed here: a member of a built-in
    prototype, and any other property of an array, a string, a number or a
    boolean. *)
Definition member (current : JSVal) (key : string) : option JSVal :=
  match current with
  | VUndef | VNull => Some VUndef
  | VObj o =>
      match o !! key with
      | Some v => Some v
      | None => if inherited key then None else Some VUndef
      end
  | VArr l =>
      match array_index key with
      | Some i => Some (default VUndef (l !! N.to_nat i))
      | None =>
          if String.eqb key "length" then Some (VNum (Z.of_nat (length l)))
          else None
      end
  | _ => None
  end.

(** [path.split('.').reduce((current, key) => current?.[key], obj)] *)
Definition getNestedValue (obj : JSVal) (path : string) : option JSVal :=
  foldl (λ current key, current ≫= λ v, member v key) (Some obj)
        (split "." path).

Definition resolveValue (value : JSVal) (data : Item) : option JSVal :=
  match value with
  | VStr s =>
      if String.prefix "data." s
      then getNestedValue (VObj data) (substring_from 5 s)
      else Some value
  | _ => Some value
  end.

(** [c] does not occur in [s]. *)
Fixpoint free_of (c : ascii) (s : string) : bool :=
  match s with
  | EmptyString => true
  | String c' s' => negb (Ascii.eqb c' c) && free_of c s'
  end.

(** * Batch runner: [ActionExecutor.executeActions]

    An action of a batch may carry a [condition], a JavaScript expression
    over [data] that [evaluateCondition] compiles and runs; its outcome is a
    parameter of the model, [false] when the expression throws.  The
    expression is taken to have no effect of its own.  [random] stands for
    [Math.random()]: it gives a number, of which [getRandomDelay] keeps the
    remainder modulo 2000, the range of [Math.floor(Math.random() * 2000)]. *)

Record Conditional : Type := {
  condition : option string;     (* action.condition *)
  action : Action
}.

Section Batch.

Context (sf : Surface).
Context (evaluateCondition : list Call → string → Item → bool).
Context (random : list Call → N).

(** [action.condition && !this.evaluateCondition(action.condition, data)] *)
Definition skips (c : Conditional) (data : Item) : M bool :=
  λ w, match condition c with
       | None => (Ok false, w)
       | Some expression =>
           if String.eqb expression "" then (Ok false, w)
           else (Ok (negb (evaluateCondition (trace w) expression data)), w)
       end.

Definition getRandomDelay : M N :=
  λ w, (Ok (random (trace w) `mod` 2000 + 1000)%N, w).

Fixpoint executeActions (actions : list Conditional) (data : Item)
    : M unit :=
  match actions with
  | [] => ret tt
  | c :: rest =>
      try_catch
        (skip <- skips c data ;;
         if skip then ret tt
         else
           executeAction sf (action c) data ;;
           if (delay (action c) =? 0)%N
           then (ms <- getRandomDelay ;; call sf (WaitForTimeout ms))
           else call sf (WaitForTimeout (delay (action c))))
        (λ error,
           log (LError ("Error executing action " +:+ type (action c) +:+ ":"))) ;;
      executeActions rest data
  end.

End Batch.

(** * API client: [ApiService.getToken] and [ApiService.getReleaseOrderData] *)

Module Api.

Inductive Request : Type :=
  | TokenRequest                           (* GET .../util/gettokenNonAid *)
  | DataRequest (token reqtime : JSVal).   (* GET .../process/Get_GateOut_CMA_RELEASE *)

(** [axios.get] resolves with a response whose body is [data], or rejects;
    [status] is [error.response.status], absent when there was no
    response. *)
Inductive Response : Type :=
  | Reply (data : JSVal)
  | Reject (status : option N).

(** The client: [this.token], [this.reqtime], and the requests sent so
    far. *)
Record Client : Type := mkClient {
  token : JSVal;
  reqtime : JSVal;
  requests : list Request
}.

Definition sent (r : Request) (s : Client) : Client :=
  mkClient (token s) (reqtime s) (requests s ++ [r]).

(** [response.data && response.data.token && response.data.reqtime] *)
Definition granted (r : Response) : option (JSVal * JSVal) :=
  match r with
  | Reply data =>
      if truthy data && truthy (field data "token")
         && truthy (field data "reqtime")
      then Some (field data "token", field data "reqtime")
      else None
  | Reject _ => None
  end.

(** [error.response && (error.response.status === 401 ||
     error.response.status === 403)] *)
Definition expired (status : option N) : bool :=
  match status with
  | Some n => (n =? 401)%N || (n =? 403)%N
  | None => false
  end.

Section Service.

Context (server : list Request → Request → Response).

Definition getToken (s : Client) : bool * Client :=
  match granted (server (requests s) TokenRequest) with
  | Some (t, r) => (true, mkClient t r (requests s ++ [TokenRequest]))
  | None => (false, sent TokenRequest s)
  end.

(** [fuel] bounds the depth of the recursive call; [None] when it is
    used up. *)
Fixpoint getReleaseOrderData (fuel : nat) (s : Client)
    : option JSVal * Client :=
  match fuel with
  | O => (None, s)
  | S fuel' =>
      let '(ready, s1) :=
        if negb (truthy (token s)) || negb (truthy (reqtime s))
        then getToken s else (true, s) in
      if negb ready then
        (* throw new Error('Failed to get token'), caught below without
           [error.response] *)
        (Some VNull, s1)
      else
        let request := DataRequest (token s1) (reqtime s1) in
        let s2 := sent request s1 in
        match server (requests s1) request with
        | Reply data => (Some (if truthy data then data else VNull), s2)
        | Reject status =>
            if expired status then
              let '(tokenSuccess, s3) := getToken s2 in
              if tokenSuccess then getReleaseOrderData fuel' s3
              else (Some VNull, s3)
            else (Some VNull, s2)
        end
  end.

End Service.

End Api.

(** * Further notions used in the statements *)

(** The number of items filed in the groups. *)
Definition filed (grouped : Grouped) : nat :=
  sum_list_with (λ group, length group.2) grouped.

(** The calls of [k] attempts that fail, each followed by its delay. *)
Definition failed_attempts (k : nat) : list Call :=
  concat (replicate k [GetReleaseOrderData; Sleep 10000]).

(** The operation kinds of [executeAction]. *)
Definition known_kinds : list string :=
  ["click"; "input"; "select"; "wait"; "scroll"; "hover"].

(** The computation only appends to the ledger, at most [n] records. *)
Definition appends {A} (n : nat) (m : M A) : Prop :=
  ∀ w data r w',
    failedFile w = Ok data → m w = (r, w') →
    ∃ passed failed,
      successList w' = successList w ++ passed
      ∧ failedFile w' = Ok (data ++ failed)
      ∧ length passed + length failed ≤ n.

(** ** Further scenarios *)

Module Cases.
Import Scenario.

(** A data array with two depots, a [null] entry and a record without
    [DEPOT]. *)
Definition mixed : list JSVal :=
  [VObj (order "D2" "RO1" 1); VNull; VObj (order "D1" "RO2" 2);
   VObj (order "D2" "RO3" 3); VObj {["ID" := VNum 4]}].

Definition mixed_groups : list (string * list (gmap string JSVal)) :=
  [("D2", [order "D2" "RO1" 1; order "D2" "RO3" 3]);
   ("D1", [order "D1" "RO2" 2])].

Definition mixed_log : list LogEntry :=
  [LWarn "Item missing DEPOT field, skipping:" (Some VNull);
   LWarn "Item missing DEPOT field, skipping:" (Some (VObj {["ID" := VNum 4]}));
   LInfo "Grouped data by DEPOT: D2, D1"].

(** The success popup shows; so does the error popup. *)
Definition success_popup : Surface :=
  {| act := λ _ _, None;
     find := λ _ c, match c with
                    | Query s =>
                        Ok (if String.eqb s "#popup-Success" then Some 4
                            else if String.eqb s "#popup-Error" then Some 5
                            else Some 0)
                    | _ => Ok None
                    end;
     find_all := λ _ _, Ok [];
     text_content := λ _ _, Ok None;
     eval_text := λ _ _, Ok "Saved";
     display := λ _ e, Ok (if (e =? 0)%nat then "none" else "block");
     url := λ _, "";
     release_order_data := λ _, VNull |}.

(** A page that is gone: every query and every call rejects. *)
Definition gone : Surface :=
  {| act := λ _ _, Some (Error "Target closed");
     find := λ _ _, Throw (Error "Target closed");
     find_all := λ _ _, Throw (Error "Target closed");
     text_content := λ _ _, Throw (Error "Target closed");
     eval_text := λ _ _, Throw (Error "Target closed");
     display := λ _ _, Throw (Error "Target closed");
     url := λ _, "";
     release_order_data := λ _, VNull |}.

(** Every selector is found, but the page never settles. *)
Definition unsettled : Surface :=
  {| act := λ _ c, match c with
                   | WaitForLoadState => Some (Error "Timeout 30000ms exceeded")
                   | _ => None
                   end;
     find := λ _ c, match c with
                    | Query _ => Ok (Some 0)
                    | _ => Ok None
                    end;
     find_all := λ _ _, Ok [1; 2];
     text_content := λ _ _, Ok None;
     eval_text := λ _ _, Ok "";
     display := λ _ _, Ok "none";
     url := λ _, "";
     release_order_data := λ _, VNull |}.




Definition single : list (string * list (gmap string JSVal)) :=
  [("D1", [order "D1" "RO1" 7])].

Definition search : Action :=
  {| type := "click"; selector := "#btnSearch"; value := VUndef;
     print_url := false; firstOnly := false; matchField := None;
     typeAction := Some "roData"; delay := 0 |}.

Definition drag : Action :=
  {| type := "drag"; selector := "#row"; value := VUndef;
     print_url := false; firstOnly := false; matchField := None;
     typeAction := Some "roData"; delay := 0 |}.


(** The API answers one record whose depot is named [constructor]. *)
Definition poisoned : Surface :=
  page (λ _, None)
       (VObj {["data" := VArr [VObj {["DEPOT" := VStr "constructor"]}]]}).

(** A data context with a nested record. *)
Definition nested : gmap string JSVal :=
  {["order" := VObj {["number" := VStr "RO1"]}; "note" := VNull]}.

(** A server that is down, and one that grants every token and rejects
    every data request as unauthorized. *)
Definition down (_ : list Api.Request) (_ : Api.Request) : Api.Response :=
  Api.Reject None.

Definition unauthorized (_ : list Api.Request) (r : Api.Request)
    : Api.Response :=
  match r with
  | Api.TokenRequest =>
      Api.Reply (VObj {["token" := VStr "t"; "reqtime" := VStr "r"]})
  | Api.DataRequest _ _ => Api.Reject (Some 401%N)
  end.

Definition signed_out : Api.Client := Api.mkClient VNull VNull [].

End Cases.

(** * Properties of the data grouper *)

Section Normalize.
Implicit Types (item raw : gmap string JSVal) (v : JSVal) (k : string).







(** A wrapper inside a wrapper loses one layer at a time. *)
Lemma normalizeDataItem_nested :
  let doubly := VObj {["FIELD" := VObj {["v" := VObj {["v" := VNum 5]}]}]} in
  normalizeDataItem doubly = {["FIELD" := VObj {["v" := VNum 5]}]}
  ∧ normalizeDataItem (VObj (normalizeDataItem doubly)) = {["FIELD" := VNum 5]}.
Proof. split; by vm_compute. Qed.

End Normalize.



Section Grouping.
Implicit Types (g : list (string * list (gmap string JSVal))) (k : string).

Lemma bucket_push g key x k :
  bucket (push g key x) k =
  if String.eqb k key then (λ b, b ++ [x]) <$> bucket g k else bucket g k.
Proof.
  induction g as [|[k' b] g IH]; simpl.
  - by destruct (String.eqb k key).
  - destruct (String.eqb key k') eqn:E1; simpl.
    + apply String.eqb_eq in E1 as ->.
      destruct (String.eqb k k') eqn:E2; simpl; done.
    + destruct (String.eqb k k') eqn:E2; simpl.
      * apply String.eqb_eq in E2 as ->.
        destruct (String.eqb k' key) eqn:E3; [|done].
        apply String.eqb_eq in E3 as ->. by rewrite String.eqb_refl in E1.
      * apply IH.
Qed.

Lemma bucket_app_new g key x k :
  bucket g key = None →
  bucket (g ++ [(key, [x])]) k =
  if String.eqb k key then Some [x] else bucket g k.
Proof.
  induction g as [|[k' b] g IH]; simpl; intros H.
  - done.
  - destruct (String.eqb key k') eqn:E1; [done|].
    destruct (String.eqb k k') eqn:E2.
    + apply String.eqb_eq in E2 as ->.
      destruct (String.eqb k' key) eqn:E3; [|done].
      apply String.eqb_eq in E3 as ->. by rewrite String.eqb_refl in E1.
    + by apply IH.
Qed.

(** When the loop of [groupByDepot] completes, the log has grown by one
    warning per item passed over and every bucket by the items filed under
    its name, in input order. *)
Lemma group_loop_ok dataArray g log g' log' :
  group_loop dataArray g log = (Ok g', log') →
  log' = log ++ warnings dataArray
  ∧ ∀ k, bucket g' k = extend (bucket g k) (members k dataArray).
Proof.
  revert g log. induction dataArray as [|item rest IH]; intros g log; simpl.
  - intros [= <- <-]. split; [by rewrite app_nil_r|].
    intros k. unfold members. simpl. destruct (bucket g k); simpl; [|done].
    by rewrite app_nil_r.
  - unfold warnings, members, key_of, skipped. simpl.
    destruct (truthy (prop (normalizeDataItem item) "DEPOT")) eqn:Ht; simpl.
    2:{ intros H. apply IH in H as [-> H]. split.
        - rewrite filter_cons_True by (by rewrite Ht). simpl.
          by rewrite <- app_assoc.
        - intros k. rewrite H. rewrite filter_cons_False; [done|].
          unfold key_of. by rewrite Ht. }
    destruct (ToString (prop (normalizeDataItem item) "DEPOT"))
      as [key|e] eqn:Hk; [|done].
    unfold read. destruct (bucket g key) as [b|] eqn:Hb.
    + intros H. apply IH in H as [-> H]. split.
      * by rewrite filter_cons_False by (by rewrite Ht).
      * intros k. rewrite H, bucket_push. unfold members.
        destruct (decide (k = key)) as [->|Hne].
        -- rewrite String.eqb_refl, Hb. simpl.
           rewrite filter_cons_True by (unfold key_of; by rewrite Ht, Hk).
           simpl. by rewrite <- app_assoc.
        -- rewrite (proj2 (String.eqb_neq _ _)) by done.
           rewrite filter_cons_False; [done|].
           unfold key_of. rewrite Ht, Hk. congruence.
    + destruct (inherited key) eqn:Hi; [done|].
      intros H. apply IH in H as [-> H]. split.
      * by rewrite filter_cons_False by (by rewrite Ht).
      * intros k. rewrite H, bucket_app_new by done. unfold members.
        destruct (decide (k = key)) as [->|Hne].
        -- rewrite String.eqb_refl.
           rewrite filter_cons_True by (unfold key_of; by rewrite Ht, Hk).
           simpl. by rewrite Hb.
        -- rewrite (proj2 (String.eqb_neq _ _)) by done.
           rewrite filter_cons_False; [done|].
           unfold key_of. rewrite Ht, Hk. congruence.
Qed.


(** The loop throws at the first item whose depot cannot serve as a
    property name or names an inherited member without an own bucket. *)
Lemma group_loop_inherited item rest g log k :
  key_of item = Some k → bucket g k = None → inherited k = true →
  group_loop (item :: rest) g log
  = (Throw (TypeError "grouped[depot].push is not a function"), log).
Proof.
  unfold key_of. simpl. intros Hk Hb Hi.
  destruct (truthy (prop (normalizeDataItem item) "DEPOT")); [|done]. simpl.
  destruct (ToString (prop (normalizeDataItem item) "DEPOT")); [|done].
  injection Hk as ->. unfold read. by rewrite Hb, Hi.
Qed.





Lemma bucket_is_Some g k : is_Some (bucket g k) ↔ k ∈ g.*1.
Proof.
  induction g as [|[k' b] g IH]; simpl.
  - split; [by intros [? ?]|by intros ?%elem_of_nil].
  - rewrite elem_of_cons, <- IH.
    destruct (String.eqb k k') eqn:E.
    + apply String.eqb_eq in E. split; eauto.
    + apply String.eqb_neq in E. split; [eauto|]. by intros [?|?].
Qed.


End Grouping.

(** C8 (the code departs from the claim).  A record whose depot is the
    string [constructor] makes [groupByDepot] throw: [grouped[depot]] reads
    the member inherited from [Object.prototype], so no bucket is created,
    and the inherited value has no [push].  When [groupByDepot] returns, it
    is as claimed ([groupByDepot_ok]). *)
Theorem groupByDepot_throws_on_inherited_name :
  groupByDepot [VObj {["DEPOT" := VStr "constructor"]}]
  = (Throw (TypeError "grouped[depot].push is not a function"), []).
Proof. by vm_compute. Qed.

(** * Properties of the engine *)

Section Combinators.
Context {A B : Type}.

Lemma keeps_ledger_ret (a : A) : keeps_ledger (ret a).
Proof. by intros w r w' [= <- <-]. Qed.

Lemma keeps_ledger_throw (e : Err) : keeps_ledger (@throw A e).
Proof. by intros w r w' [= <- <-]. Qed.

Lemma keeps_ledger_lift (r : Res A) : keeps_ledger (lift r).
Proof. by intros w r' w' [= <- <-]. Qed.

Lemma keeps_ledger_bind (m : M A) (k : A → M B) :
  keeps_ledger m → (∀ a, keeps_ledger (k a)) → keeps_ledger (bind m k).
Proof.
  intros Hm Hk w r w'. unfold bind.
  destruct (m w) as [[a|e] w1] eqn:E; destruct (Hm _ _ _ E) as (<- & <- & <-).
  - apply Hk.
  - by intros [= <- <-].
Qed.

Lemma keeps_ledger_try_catch (m : M A) (h : Err → M A) :
  keeps_ledger m → (∀ e, keeps_ledger (h e)) → keeps_ledger (try_catch m h).
Proof.
  intros Hm Hh w r w'. unfold try_catch.
  destruct (m w) as [[a|e] w1] eqn:E; destruct (Hm _ _ _ E) as (<- & <- & <-).
  - by intros [= <- <-].
  - apply Hh.
Qed.

Lemma keeps_ledger_or_default (m : M A) (a : A) :
  keeps_ledger m → keeps_ledger (or_default m a).
Proof.
  intros. apply keeps_ledger_try_catch; [done|]. intros. apply keeps_ledger_ret.
Qed.

Lemma never_throws_ret (a : A) : never_throws (ret a).
Proof. intros w. by exists a, w. Qed.

Lemma never_throws_bind (m : M A) (k : A → M B) :
  never_throws m → (∀ a, never_throws (k a)) → never_throws (bind m k).
Proof.
  intros Hm Hk w. unfold bind. destruct (Hm w) as (a & w1 & ->). apply Hk.
Qed.

Lemma never_throws_try_catch (m : M A) (h : Err → M A) :
  (∀ e, never_throws (h e)) → never_throws (try_catch m h).
Proof.
  intros Hh w. unfold try_catch. destruct (m w) as [[a|e] w1]; [by eauto|].
  apply Hh.
Qed.

End Combinators.

Lemma keeps_ledger_log (e : LogEntry) : keeps_ledger (log e).
Proof. by intros w r w' [= <- <-]. Qed.

Lemma never_throws_log (e : LogEntry) : never_throws (log e).
Proof. intros w. by eexists _, _. Qed.

Lemma set_failedFile_same w : set_failedFile (failedFile w) w = w.
Proof. by destruct w. Qed.

Lemma set_trace_same w : set_trace (trace w) w = w.
Proof. by destruct w. Qed.

Lemma clicks_app t1 t2 : clicks (t1 ++ t2) = clicks t1 ++ clicks t2.
Proof. apply filter_app. Qed.

Create HintDb ledger.
#[local] Hint Resolve keeps_ledger_ret keeps_ledger_throw keeps_ledger_lift
  keeps_ledger_bind keeps_ledger_try_catch keeps_ledger_or_default
  keeps_ledger_log : ledger.

(** Decompose a computation along its control structure. *)
Ltac ledger :=
  repeat match goal with
    | |- keeps_ledger (bind _ _) => apply keeps_ledger_bind
    | |- keeps_ledger (try_catch _ _) => apply keeps_ledger_try_catch
    | |- keeps_ledger (or_default _ _) => apply keeps_ledger_or_default
    | |- keeps_ledger (if ?b then _ else _) => destruct b
    | |- keeps_ledger (match ?x with _ => _ end) => destruct x
    | |- keeps_ledger _ => solve [eauto with ledger]
    | |- ∀ _, _ => intro
    end.

Ltac driver_call :=
  intros w r w'; cbv beta delta [call page_query page_query_all elem_query
    elem_text page_eval_text elem_display page_url getReleaseOrderData sleep];
  repeat case_match; by intros [= <- <-].

Section Driver.
Context (sf : Surface).

Lemma keeps_ledger_call c : keeps_ledger (call sf c).
Proof. driver_call. Qed.
Lemma keeps_ledger_page_query s : keeps_ledger (page_query sf s).
Proof. driver_call. Qed.
Lemma keeps_ledger_page_query_all s : keeps_ledger (page_query_all sf s).
Proof. driver_call. Qed.
Lemma keeps_ledger_elem_query e s : keeps_ledger (elem_query sf e s).
Proof. driver_call. Qed.
Lemma keeps_ledger_elem_text e : keeps_ledger (elem_text sf e).
Proof. driver_call. Qed.
Lemma keeps_ledger_page_eval_text s : keeps_ledger (page_eval_text sf s).
Proof. driver_call. Qed.
Lemma keeps_ledger_elem_display e : keeps_ledger (elem_display sf e).
Proof. driver_call. Qed.
Lemma keeps_ledger_page_url : keeps_ledger (page_url sf).
Proof. driver_call. Qed.

#[local] Hint Resolve keeps_ledger_call keeps_ledger_page_query
  keeps_ledger_page_query_all keeps_ledger_elem_query keeps_ledger_elem_text
  keeps_ledger_page_eval_text keeps_ledger_elem_display keeps_ledger_page_url
  : ledger.

Lemma keeps_ledger_require_visible s : keeps_ledger (require_visible sf s).
Proof. unfold require_visible. ledger. Qed.

Lemma keeps_ledger_find_match mf mv elements :
  keeps_ledger (find_match sf mf mv elements).
Proof. induction elements; simpl; ledger. Qed.

Lemma keeps_ledger_executeAction a data : keeps_ledger (executeAction sf a data).
Proof.
  pose proof keeps_ledger_require_visible. pose proof keeps_ledger_find_match.
  unfold executeAction, click_action, print_url_after. ledger.
Qed.

Lemma keeps_ledger_pause a : keeps_ledger (pause sf a).
Proof. unfold pause. ledger. Qed.

Lemma keeps_ledger_checkAndHandlePopup : keeps_ledger (checkAndHandlePopup sf).
Proof. unfold checkAndHandlePopup, check_popup. ledger. Qed.

Lemma never_throws_checkAndHandlePopup : never_throws (checkAndHandlePopup sf).
Proof.
  apply never_throws_try_catch. intros e. apply never_throws_bind.
  - apply never_throws_log.
  - intros. apply never_throws_ret.
Qed.

(** ** The action interpreter *)

(** One step of the scan of [find_match] on a still page: the element did
    not qualify and the scan goes on from a later state. *)
Ltac scan_on IH w1 :=
  let w' := fresh "w'" in
  let Hc := fresh "Hc" in
  destruct (IH w1) as (w' & -> & Hc & ?);
  exists w'; split; [done|];
  rewrite Hc; simpl; rewrite !clicks_app; simpl;
  by rewrite !app_nil_r.

(** On a still page the scan of [find_match] finds the first element that
    qualifies, clicks nothing and leaves the ledger alone. *)
Lemma find_match_still mf mv elements w :
  still sf →
  ∃ w', find_match sf mf mv elements w
        = (Ok (List.find (qualifies sf mf mv) elements), w')
    ∧ clicks (trace w') = clicks (trace w)
    ∧ failedFile w' = failedFile w ∧ successList w' = successList w
    ∧ successFile w' = successFile w.
Proof.
  intros [Hf Ht]. revert w. induction elements as [|e rest IH]; intros w.
  - by exists w.
  - simpl. unfold bind, try_catch, elem_query, elem_text, ret, qualifies.
    rewrite (Hf (trace w)).
    destruct (find sf [] (ElemQuery e (mf_selector mf))) as [[fe|]|err] eqn:E;
      simpl.
    + rewrite (Ht (trace w ++ _)).
      destruct (text_content sf [] fe) as [[t|]|err] eqn:E2; simpl.
      * destruct (negb (String.eqb t "") && includes (trim t) mv) eqn:E3.
        -- eexists. split; [done|]. simpl. rewrite !clicks_app. simpl.
           by rewrite !app_nil_r.
        -- scan_on IH
             (record (ElemText fe) (record (ElemQuery e (mf_selector mf)) w)).
      * scan_on IH
          (record (ElemText fe) (record (ElemQuery e (mf_selector mf)) w)).
      * scan_on IH
          (record (ElemText fe) (record (ElemQuery e (mf_selector mf)) w)).
    + scan_on IH (record (ElemQuery e (mf_selector mf)) w).
    + scan_on IH (record (ElemQuery e (mf_selector mf)) w).
Qed.

(** C7 (amended).  For a click action with [firstOnly] and [matchField],
    on a page whose selector is found and visible, whose matches are
    [first :: rest] and whose content stays as it is during the scan, the
    one click of the action goes to the first match, in order, whose nested
    [matchField.selector] element exists and has a non-empty text that,
    after trimming, contains the string form of [data[matchField.value]];
    when no match qualifies, the click goes to [first]. *)
Theorem click_targets_first_qualifying_match
    (a : Action) (mf : MatchField) (data : gmap string JSVal)
    (matchValue : string) (e0 first : Elem) (rest : list Elem) (w : World) :
  type a = "click" → firstOnly a = true → matchField a = Some mf →
  still sf →
  find sf (trace w) (Query (selector a)) = Ok (Some e0) →
  act sf (trace w ++ [Query (selector a)]) (WaitForSelector (selector a))
  = None →
  find_all sf (trace w ++ [Query (selector a); WaitForSelector (selector a)])
    (selector a) = Ok (first :: rest) →
  toString (prop data (mf_value mf)) = Ok matchValue →
  ∃ r w',
    executeAction sf a data w = (r, w')
    ∧ clicks (trace w')
      = clicks (trace w)
        ++ [ElemClick
              (default first
                 (List.find (qualifies sf mf matchValue) (first :: rest)))].
Proof.
  intros Hty Hfo Hmf Hstill Hq Hw Hall Hmv.
  unfold executeAction. rewrite Hty. simpl.
  unfold click_action, require_visible, or_default, try_catch, bind,
    page_query, call, page_query_all, lift, ret.
  rewrite Hq. simpl. rewrite Hw, Hfo. simpl. rewrite <- app_assoc. simpl.
  rewrite Hall, Hmf, Hmv.
  match goal with |- context [find_match sf mf matchValue ?l ?w0] =>
    destruct (find_match_still mf matchValue l w0 Hstill)
      as (w1 & -> & Hc & _) end.
  simpl in Hc. rewrite !clicks_app in Hc. simpl in Hc.
  rewrite !app_nil_r in Hc.
  set (target := default first _).
  destruct (act sf (trace w1) (ElemClick target)).
  { eexists _, _. split; [done|]. simpl. by rewrite clicks_app, Hc. }
  unfold print_url_after, bind, page_url, ret.
  destruct (act sf (trace (record (ElemClick target) w1)) WaitForLoadState);
    destruct (print_url a); eexists _, _; (split; [done|]); simpl;
    rewrite !clicks_app, Hc; simpl; by rewrite ?app_nil_r.
Qed.


(** Without a value to compare with, the click action throws on every
    page and clicks nothing. *)
Lemma missing_match_value_never_clicks (a : Action) (mf : MatchField)
    (data : gmap string JSVal) (e0 : Err) (w : World) :
  type a = "click" → firstOnly a = true → matchField a = Some mf →
  toString (prop data (mf_value mf)) = Throw e0 →
  ∃ e w', executeAction sf a data w = (Throw e, w')
          ∧ clicks (trace w') = clicks (trace w).
Proof.
  intros Hty Hfo Hmf Hv.
  unfold executeAction. rewrite Hty. simpl.
  unfold click_action, require_visible, or_default, try_catch, bind,
    page_query, call, page_query_all, lift, ret, throw.
  rewrite Hfo, Hmf, Hv.
  destruct (find sf (trace w) (Query (selector a))) as [[el|]|err]; simpl;
    try (eexists _, _; split; [done|]; simpl; rewrite clicks_app; simpl;
         by rewrite app_nil_r).
  destruct (act sf _ (WaitForSelector (selector a))); simpl;
    try (eexists _, _; split; [done|]; simpl; rewrite !clicks_app; simpl;
         by rewrite !app_nil_r).
  destruct (find_all sf _ (selector a)) as [[|first rest]|err]; simpl;
    eexists _, _; (split; [done|]); simpl; rewrite !clicks_app; simpl;
    by rewrite !app_nil_r.
Qed.

(** ** The session orchestrator *)

Lemma keeps_ledger_release_order_actions acts roData :
  keeps_ledger (release_order_actions sf acts roData).
Proof.
  pose proof keeps_ledger_executeAction.
  pose proof keeps_ledger_pause.
  pose proof keeps_ledger_checkAndHandlePopup.
  induction acts as [|action rest IH]; simpl.
  - apply keeps_ledger_ret.
  - case_bool_decide; [|done].
    ledger.
Qed.

Lemma never_throws_release_order_actions acts roData :
  never_throws (release_order_actions sf acts roData).
Proof.
  induction acts as [|action rest IH]; simpl.
  - apply never_throws_ret.
  - case_bool_decide; [|done].
    apply never_throws_bind.
    + apply never_throws_try_catch. intros. apply never_throws_ret.
    + intros [reason|]; [apply never_throws_ret|done].
Qed.

(** The outcome of one item: [None] for success, the reason otherwise. *)
Lemma processReleaseOrder_records_once site roData depot w data :
  failedFile w = Ok data →
  ∃ failed w1,
    release_order_actions sf (actions site) roData w = (Ok failed, w1)
    ∧ failedFile w1 = Ok data
    ∧ successList w1 = successList w
    ∧ processReleaseOrder sf site roData depot w
      = (Ok tt,
         match failed with
         | Some reason =>
             set_failedFile (Ok (data ++ [failed_item depot roData reason])) w1
         | None =>
             set_successList (successList w ++ [success_item depot roData]) w1
         end).
Proof.
  intros Hf.
  destruct (never_throws_release_order_actions (actions site) roData w)
    as (failed & w1 & E).
  destruct (keeps_ledger_release_order_actions _ _ _ _ _ E) as (Hf1 & Hs1 & _).
  exists failed, w1. rewrite Hf in Hf1. repeat split; try done.
  unfold processReleaseOrder, bind. rewrite E.
  destruct failed as [reason|].
  - unfold appendFailedToFile. by rewrite Hf1.
  - unfold push_success. by rewrite Hs1.
Qed.





Lemma for_each_processReleaseOrder site depot account items w data :
  failedFile w = Ok data →
  ∃ w' passed failed,
    for_each items
      (λ item, processReleaseOrder sf site (with_account account item) depot) w
    = (Ok tt, w')
    ∧ successList w' = successList w ++ passed
    ∧ failedFile w' = Ok (data ++ failed)
    ∧ length passed + length failed = length items.
Proof.
  revert w data. induction items as [|item rest IH]; intros w data Hf.
  - exists w, [], []. simpl. by rewrite !app_nil_r.
  - simpl. unfold bind at 1.
    destruct (processReleaseOrder_records_once site (with_account account item)
                depot w data Hf) as (outcome & w1 & _ & Hf1 & Hs1 & ->).
    destruct outcome as [reason|].
    + edestruct (IH (set_failedFile (Ok (data ++ [failed_item depot
                   (with_account account item) reason])) w1))
        as (w' & passed & failed & -> & Hs & Hf' & Hl); [done|].
      exists w', passed, (failed_item depot (with_account account item) reason :: failed).
      split; [done|]. simpl in Hs. rewrite Hs, Hs1, Hf', <- app_assoc. simpl.
      repeat split; try done. lia.
    + edestruct (IH (set_successList (successList w ++ [success_item depot
                   (with_account account item)]) w1))
        as (w' & passed & failed & -> & Hs & Hf' & Hl); [exact Hf1|].
      exists w', (success_item depot (with_account account item) :: passed), failed.
      split; [done|]. simpl in Hs. rewrite Hs, Hf', <- app_assoc. simpl.
      repeat split; try done. lia.
Qed.



(** ** The result ledger *)

(** Appending one record for each item of a list that is not skipped. *)
Lemma for_each_append {A} (skip : A → bool) (f : A → FailedItem)
    (items : list A) w data :
  failedFile w = Ok data →
  for_each items (λ item, if skip item then ret tt
                          else appendFailedToFile (f item)) w
  = (Ok tt,
     set_failedFile
       (Ok (data ++ (f <$> filter (λ item, skip item = false) items))) w).
Proof.
  revert w data. induction items as [|item rest IH]; intros w data Hf; simpl.
  - rewrite app_nil_r, <- Hf. by rewrite set_failedFile_same.
  - unfold bind at 1. destruct (skip item) eqn:E.
    + unfold ret at 1. rewrite (IH _ data) by done.
      by rewrite filter_cons_False by (by rewrite E).
    + unfold appendFailedToFile at 1. rewrite Hf.
      rewrite (IH _ (data ++ [f item])) by done.
      rewrite filter_cons_True by done. simpl. by rewrite <- app_assoc.
Qed.

Lemma for_each_append_all {A} (f : A → FailedItem) (items : list A) w data :
  failedFile w = Ok data →
  for_each items (λ item, appendFailedToFile (f item)) w
  = (Ok tt, set_failedFile (Ok (data ++ (f <$> items))) w).
Proof.
  revert w data. induction items as [|item rest IH]; intros w data Hf; simpl.
  - rewrite app_nil_r, <- Hf. by rewrite set_failedFile_same.
  - unfold bind at 1. unfold appendFailedToFile at 1. rewrite Hf.
    rewrite (IH _ (data ++ [f item])) by done. simpl. by rewrite <- app_assoc.
Qed.

Lemma markRemainingAsFailed_exact grouped depot items w data :
  bucket grouped depot = Some items →
  failedFile w = Ok data →
  markRemainingAsFailed grouped depot w
  = (Ok tt,
     set_failedFile
       (Ok (data ++
            ((λ item, failed_item depot item "Browser/Page closed unexpectedly")
               <$> filter (λ item, has (processed w data) (ro_number item) = false)
                     items))) w).
Proof.
  intros Hb Hf. unfold markRemainingAsFailed, bind, getFailedROs, items_of, ret.
  rewrite Hf, Hb.
  by rewrite (for_each_append
                (λ item, has (processed w data) (ro_number item))
                _ items w data Hf).
Qed.

(** A depot whose processing throws a closed-browser error: the success
    list is saved, the unrecorded items are marked, the context is closed
    and the loop over the depots is left. *)
Lemma depot_iteration_closed depot grouped accounts site items w w1 e data :
  act sf (trace w) NewContext = None →
  act sf (trace w ++ [NewContext]) NewPage = None →
  processDepot sf depot grouped accounts site
    (record NewPage (record NewContext w)) = (Throw e, w1) →
  is_closed_error e = true →
  bucket grouped depot = Some items →
  failedFile w1 = Ok data →
  ∃ w2,
    depot_iteration sf depot grouped accounts site w = (Ok Break, w2)
    ∧ failedFile w2
      = Ok (data ++
            ((λ item, failed_item depot item "Browser/Page closed unexpectedly")
               <$> filter (λ item, has (processed w1 data) (ro_number item) = false)
                     items))
    ∧ successList w2 = successList w1
    ∧ successFile w2 = Ok (successList w1).
Proof.
  intros Hc Hp Hd He Hb Hf. unfold depot_iteration.
  unfold bind at 1. unfold call at 1. rewrite Hc.
  unfold bind at 1. unfold call at 1. simpl. rewrite Hp.
  unfold finally, try_catch. unfold bind at 1. rewrite Hd, He.
  unfold bind at 1. unfold saveSuccessToFile at 1.
  unfold bind at 1.
  rewrite (markRemainingAsFailed_exact grouped depot items _ data Hb)
    by exact Hf.
  unfold bind, close_context, or_default, try_catch, call, ret. simpl.
  repeat match goal with
         | |- context [act sf ?t CloseContext] => destruct (act sf t CloseContext)
         end; eexists; (split; [reflexivity|]); simpl; done.
Qed.

Lemma depot_loop_break depot rest grouped accounts site w w2 :
  depot_iteration sf depot grouped accounts site w = (Ok Break, w2) →
  depot_loop sf (depot :: rest) grouped accounts site w = (Ok tt, w2).
Proof. intros H. simpl. unfold bind. by rewrite H. Qed.

Lemma processDepot_no_account depot grouped accounts site items w data :
  truthy (prop accounts depot) = false →
  bucket grouped depot = Some items →
  failedFile w = Ok data →
  processDepot sf depot grouped accounts site w
  = (Ok tt,
     set_failedFile
       (Ok (data ++
            ((λ item, failed_item depot item "No account configured for depot")
               <$> items))) w).
Proof.
  intros Ha Hb Hf. unfold processDepot. rewrite Ha. simpl.
  unfold bind, items_of. rewrite Hb. unfold ret.
  by apply for_each_append_all.
Qed.

Lemma depot_iteration_no_account depot grouped accounts site items w data :
  truthy (prop accounts depot) = false →
  bucket grouped depot = Some items →
  failedFile w = Ok data →
  act sf (trace w) NewContext = None →
  act sf (trace w ++ [NewContext]) NewPage = None →
  depot_iteration sf depot grouped accounts site w
  = (Ok Continue,
     set_trace (trace w ++ [NewContext; NewPage; CloseContext])
       (set_failedFile
          (Ok (data ++
               ((λ item, failed_item depot item "No account configured for depot")
                  <$> items))) w)).
Proof.
  intros Ha Hb Hf Hc Hp. unfold depot_iteration.
  unfold bind at 1. unfold call at 1. rewrite Hc.
  unfold bind at 1. unfold call at 1. simpl. rewrite Hp.
  unfold finally, try_catch, bind.
  erewrite processDepot_no_account by done.
  unfold ret, close_context, or_default, try_catch, call. simpl.
  destruct (act sf _ CloseContext); unfold ret; f_equal;
    unfold record, set_trace, set_failedFile; simpl;
    by rewrite <- !app_assoc.
Qed.

(** C3 (amended).  With a failed file that can be read and release-order
    numbers that are primitives, [markRemainingAsFailed] appends to the
    failed file, in depot order, one record with reason
    [Browser/Page closed unexpectedly] for exactly those items of the depot
    whose release-order number is in neither the success list nor the
    failed file as read at the start, and nothing for the others; the
    success list is left as it is. *)
Theorem reconciliation_marks_exactly_the_unrecorded
    (grouped : list (string * list (gmap string JSVal))) (depot : string)
    (items : list (gmap string JSVal)) (w : World) (data : list FailedItem) :
  bucket grouped depot = Some items →
  failedFile w = Ok data →
  Forall (λ item, primitive (ro_number item) = true) items →
  markRemainingAsFailed grouped depot w
  = (Ok tt,
     set_failedFile
       (Ok (data ++
            ((λ item, failed_item depot item "Browser/Page closed unexpectedly")
               <$> filter (λ item, has (processed w data) (ro_number item) = false)
                     items))) w).
Proof. intros Hb Hf _. by apply markRemainingAsFailed_exact. Qed.

(** C6 (amended).  For a depot without an account and a failed file that
    can be read, [processDepot] records every item of the depot, in order,
    with reason [No account configured for depot], makes no call on the
    browser (no navigation, no action) and leaves the success list alone.
    The cycle has by then opened a browsing context and a page for the
    depot, and closes the context afterwards: the calls of the iteration
    are [NewContext; NewPage; CloseContext]. *)
Theorem depot_without_account_is_failed_without_browsing (depot : string)
    (grouped : list (string * list (gmap string JSVal)))
    (accounts : gmap string JSVal) (site : SiteConfig)
    (items : list (gmap string JSVal)) (w : World) (data : list FailedItem) :
  truthy (prop accounts depot) = false →
  bucket grouped depot = Some items →
  failedFile w = Ok data →
  let recorded :=
    set_failedFile
      (Ok (data ++
           ((λ item, failed_item depot item "No account configured for depot")
              <$> items))) w in
  processDepot sf depot grouped accounts site w = (Ok tt, recorded)
  ∧ trace recorded = trace w
  ∧ successList recorded = successList w
  ∧ (act sf (trace w) NewContext = None →
     act sf (trace w ++ [NewContext]) NewPage = None →
     depot_iteration sf depot grouped accounts site w
     = (Ok Continue,
        set_trace (trace w ++ [NewContext; NewPage; CloseContext]) recorded)).
Proof.
  intros Ha Hb Hf recorded. split; [by apply processDepot_no_account|].
  split; [done|]. split; [done|].
  intros Hc Hp. by apply depot_iteration_no_account.
Qed.

(** ** The retrying fetch *)

Lemma count_retry_calls n :
  count is_fetch (retry_calls n) = n
  ∧ count is_sleep (retry_calls n) = pred n.
Proof.
  induction n as [|[|n] [IH1 IH2]]; [done|done|].
  change (retry_calls (S (S n)))
    with (GetReleaseOrderData :: Sleep 10000 :: retry_calls (S n)).
  unfold count in *. remember (retry_calls (S n)) as l.
  rewrite !filter_cons. simpl. by rewrite IH1, IH2.
Qed.

Lemma fetch_attempts_exhausted n v w :
  (∀ t, usable (release_order_data sf t) = false) →
  ∃ r, fetch_attempts sf n v w = (Ok r, set_trace (trace w ++ retry_calls n) w)
       ∧ (n = 0 ∧ r = v ∨ ∃ t, r = release_order_data sf t).
Proof.
  intros Hu. revert v w. induction n as [|n IH]; intros v w.
  - exists v. simpl. rewrite app_nil_r, set_trace_same. eauto.
  - simpl. unfold bind at 1. unfold getReleaseOrderData at 1. rewrite Hu.
    unfold bind at 1. destruct n as [|n].
    + eexists. split; [done|]. eauto.
    + unfold sleep at 1.
      destruct (IH (release_order_data sf (trace w))
                  (record (Sleep 10000) (record GetReleaseOrderData w)))
        as (r & -> & Hr).
      exists r. split.
      * f_equal. simpl. unfold record, set_trace. simpl.
        by rewrite <- !app_assoc.
      * destruct Hr as [[? _]|Hr]; [done|eauto].
Qed.

(** C5 (amended).  When the first two answers of the API client are not
    usable (null, or without truthy [data]), [fetchDataWithRetry] with three
    attempts returns the third answer after three calls and two delays of
    10 s.  When no answer is ever usable, it makes exactly [maxRetries]
    calls with a delay between consecutive ones and returns the last
    answer, which is not usable: [null] when the client answered [null]
    (or was never called), and otherwise whatever the client answered. *)
Theorem fetch_retries_then_returns_last_answer (w : World) :
  (* two failures, then the third answer *)
  (let r1 := release_order_data sf (trace w) in
   let r2 := release_order_data sf
               (trace w ++ [GetReleaseOrderData; Sleep 10000]) in
   let r3 := release_order_data sf
               (trace w ++ [GetReleaseOrderData; Sleep 10000;
                            GetReleaseOrderData; Sleep 10000]) in
   usable r1 = false → usable r2 = false →
   fetchDataWithRetry sf 3 w
   = (Ok r3,
      set_trace (trace w ++ [GetReleaseOrderData; Sleep 10000;
                             GetReleaseOrderData; Sleep 10000;
                             GetReleaseOrderData]) w))
  (* no usable answer at all *)
  ∧ ((∀ t, usable (release_order_data sf t) = false) →
     ∀ maxRetries,
       ∃ r,
         fetchDataWithRetry sf maxRetries w
         = (Ok r, set_trace (trace w ++ retry_calls maxRetries) w)
         ∧ count is_fetch (retry_calls maxRetries) = maxRetries
         ∧ count is_sleep (retry_calls maxRetries) = pred maxRetries
         ∧ usable r = false
         ∧ (maxRetries = 0 → r = VNull)
         ∧ (0 < maxRetries → ∃ t, r = release_order_data sf t)
         ∧ ((∀ t, release_order_data sf t = VNull) → r = VNull)).
Proof.
  split.
  - intros r1 r2 r3 H1 H2. unfold fetchDataWithRetry. simpl.
    unfold bind, getReleaseOrderData, sleep, ret. fold r1. rewrite H1. simpl.
    rewrite <- app_assoc. simpl. fold r2. rewrite H2. simpl.
    rewrite <- !app_assoc. simpl. fold r3.
    destruct (usable r3); f_equal; unfold record, set_trace; simpl;
      by rewrite <- !app_assoc.
  - intros Hu n.
    destruct (fetch_attempts_exhausted n VNull w Hu) as (r & E & Hr).
    destruct (count_retry_calls n) as [C1 C2].
    exists r. repeat split; try done.
    + destruct Hr as [[_ ->]|[t ->]]; [done|apply Hu].
    + intros ->. simpl in E. unfold ret in E. by injection E as <- _.
    + intros Hn. destruct Hr as [[-> _]|Hr]; [lia|done].
    + intros Hnull. destruct Hr as [[_ ->]|[t ->]]; [done|apply Hnull].
Qed.

End Driver.

(** * The properties on concrete pages *)

Section Concrete.
Import Scenario.

(** C7, as claimed, fails.  Of two matches only the second has a nested
    text that contains the string form [RO1 ] of the data value, trailing
    space included; the text is trimmed before the comparison, no match
    qualifies, and the first match is clicked. *)
Lemma click_misses_match_with_padded_value :
  toString (prop (order "D1" "RO1 " 1) "releaseOrderNumber") = Ok "RO1 "
  ∧ text_content (rows ["zzz"; "RO1 "]) [] 101 = Ok (Some "zzz")
  ∧ text_content (rows ["zzz"; "RO1 "]) [] 102 = Ok (Some "RO1 ")
  ∧ includes "zzz" "RO1 " = false
  ∧ includes "RO1 " "RO1 " = true
  ∧ ∃ w, executeAction (rows ["zzz"; "RO1 "]) pick (order "D1" "RO1 " 1) start
         = (Ok tt, w)
         ∧ clicks (trace w) = [ElemClick 1].
Proof.
  repeat (split; [by vm_compute|]). eexists. split; by vm_compute.
Qed.

(** C7 on three matches of which only the second qualifies. *)
Lemma click_second_of_three :
  type pick = "click" ∧ firstOnly pick = true
  ∧ matchField pick = Some by_number
  ∧ still (rows ["RO-1"; "  RO-2 "; "RO-3"])
  ∧ qualifies (rows ["RO-1"; "  RO-2 "; "RO-3"]) by_number "RO-2" <$> [1; 2; 3]
    = [false; true; false]
  ∧ ∃ r w,
      executeAction (rows ["RO-1"; "  RO-2 "; "RO-3"]) pick
        (order "D1" "RO-2" 1) start = (r, w)
      ∧ clicks (trace w) = clicks (trace start) ++ [ElemClick 2].
Proof.
  assert (H1 : type pick = "click") by reflexivity.
  assert (H2 : firstOnly pick = true) by reflexivity.
  assert (H3 : matchField pick = Some by_number) by reflexivity.
  assert (H4 : still (rows ["RO-1"; "  RO-2 "; "RO-3"])).
  { split; intros; reflexivity. }
  split; [exact H1|]. split; [exact H2|]. split; [exact H3|].
  split; [exact H4|]. split; [reflexivity|].
  exact (click_targets_first_qualifying_match
           (rows ["RO-1"; "  RO-2 "; "RO-3"]) pick by_number
           (order "D1" "RO-2" 1) "RO-2" 0 1 [2; 3] start
           H1 H2 H3 H4 eq_refl eq_refl eq_refl eq_refl).
Defined.




(** C3, as claimed, fails.  With two of five orders in the success list,
    reconciliation records the other three, and the reason it gives is not
    the text of the claim. *)
Lemma reconciliation_reason_is_not_the_specified_text :
  ∃ w data,
    markRemainingAsFailed [("D1", five)] "D1" two_done = (Ok tt, w)
    ∧ failedFile w = Ok data
    ∧ f_releaseOrderNumber <$> data = [VStr "RO3"; VStr "RO4"; VStr "RO5"]
    ∧ Forall (λ f, f_reason f = "Browser/Page closed unexpectedly"
                   ∧ f_reason f ≠ "surface closed unexpectedly") data.
Proof.
  eexists _, _. split; [by vm_compute|]. split; [reflexivity|].
  split; [by vm_compute|]. repeat constructor; by vm_compute.
Qed.

(** C3 on the five orders. *)
Lemma reconciliation_of_three_of_five :
  bucket [("D1", five)] "D1" = Some five
  ∧ failedFile two_done = Ok []
  ∧ Forall (λ item, primitive (ro_number item) = true) five
  ∧ markRemainingAsFailed [("D1", five)] "D1" two_done
    = (Ok tt,
       set_failedFile
         (Ok ([] ++
              ((λ item, failed_item "D1" item "Browser/Page closed unexpectedly")
                 <$> filter (λ item, has (processed two_done []) (ro_number item) = false)
                       five))) two_done).
Proof.
  assert (H1 : bucket [("D1", five)] "D1" = Some five) by reflexivity.
  assert (H2 : failedFile two_done = Ok []) by reflexivity.
  assert (H3 : Forall (λ item, primitive (ro_number item) = true) five).
  { repeat constructor; by vm_compute. }
  split; [exact H1|]. split; [exact H2|]. split; [exact H3|].
  exact (reconciliation_marks_exactly_the_unrecorded _ _ _ _ _ H1 H2 H3).
Defined.

(** C6, as claimed, fails.  In a cycle whose only depot has no account a
    browsing context and a page are opened for the depot before the account
    is looked up, and the reason recorded is not the text of the claim. *)
Lemma context_is_opened_without_account :
  prop (∅ : gmap string JSVal) "D1" = VUndef
  ∧ ∃ w f,
      processAutomation no_logout ∅ site start = (Ok tt, w)
      ∧ trace w = [GetReleaseOrderData; NewContext; NewPage; CloseContext]
      ∧ failedFile w = Ok [f]
      ∧ f_reason f = "No account configured for depot"
      ∧ f_reason f ≠ "no account configured".
Proof.
  split; [done|]. eexists _, _. split; [by vm_compute|].
  split; [by vm_compute|]. split; [by vm_compute|]. split; by vm_compute.
Qed.

(** C6 on a depot of five orders. *)
Lemma depot_without_account_sample :
  truthy (prop (∅ : gmap string JSVal) "D1") = false
  ∧ bucket [("D1", five)] "D1" = Some five
  ∧ failedFile start = Ok []
  ∧ processDepot no_logout "D1" [("D1", five)] ∅ site start
    = (Ok tt,
       set_failedFile
         (Ok ([] ++
              ((λ item, failed_item "D1" item "No account configured for depot")
                 <$> five))) start).
Proof.
  assert (H1 : truthy (prop (∅ : gmap string JSVal) "D1") = false)
    by reflexivity.
  assert (H2 : bucket [("D1", five)] "D1" = Some five) by reflexivity.
  assert (H3 : failedFile start = Ok []) by reflexivity.
  split; [exact H1|]. split; [exact H2|]. split; [exact H3|].
  exact (proj1 (depot_without_account_is_failed_without_browsing
                  no_logout "D1" [("D1", five)] ∅ site five start [] H1 H2 H3)).
Defined.

(** C5, as claimed, fails.  An API client whose every answer is an
    object without [data] never gives a payload with data, and
    [fetchDataWithRetry] returns its last answer, which is not [null]. *)
Lemma fetch_returns_last_answer_not_null :
  (∀ t, release_order_data no_data t = VObj ∅)
  ∧ field (VObj ∅) "data" = VUndef
  ∧ ∃ w, fetchDataWithRetry no_data 3 start = (Ok (VObj ∅), w)
         ∧ count is_fetch (trace w) = 3
         ∧ VObj ∅ ≠ VNull.
Proof.
  split; [done|]. split; [done|].
  eexists. split; [by vm_compute|]. split; by vm_compute.
Qed.

(** C5 on a client that answers [null] twice and then a payload. *)
Lemma fetch_succeeds_on_third_attempt :
  usable (release_order_data flaky (trace start)) = false
  ∧ usable (release_order_data flaky
              (trace start ++ [GetReleaseOrderData; Sleep 10000])) = false
  ∧ fetchDataWithRetry flaky 3 start
    = (Ok payload,
       set_trace (trace start ++ [GetReleaseOrderData; Sleep 10000;
                                  GetReleaseOrderData; Sleep 10000;
                                  GetReleaseOrderData]) start).
Proof.
  assert (H1 : usable (release_order_data flaky (trace start)) = false)
    by reflexivity.
  assert (H2 : usable (release_order_data flaky
                 (trace start ++ [GetReleaseOrderData; Sleep 10000])) = false)
    by reflexivity.
  split; [exact H1|]. split; [exact H2|].
  exact (proj1 (fetch_retries_then_returns_last_answer flaky start) H1 H2).
Defined.

(** C1 (the code departs from the claim).  One order, whose only action
    succeeds without popup, is pushed onto the success list; the logout
    click then finds no button and throws, and the handler of the depot
    loop appends every item of the depot to the failed file.  The cycle
    completes with the order in both records.  [processReleaseOrder] by
    itself records an item once ([processReleaseOrder_records_once]). *)
Theorem processAutomation_records_order_twice :
  ∃ w,
    processAutomation no_logout accounts site start = (Ok tt, w)
    ∧ successList w
      = [ {| s_depot := "D1"; s_releaseOrderID := VNum 7;
             s_releaseOrderNumber := VStr "RO1" |} ]
    ∧ failedFile w
      = Ok [ {| f_depot := "D1"; f_releaseOrderID := VNum 7;
                f_releaseOrderNumber := VStr "RO1";
                f_reason := "Depot processing error: Selector not found: .btn.btn-logout.logout-btn" |} ].
Proof. eexists. split; [by vm_compute|]. split; by vm_compute. Qed.

End Concrete.

(** * Properties of the scheduler *)

Section SchedulerFacts.
Import Scheduler.

Lemma step_guarded s e s' : guarded s → step s e = Some s' → guarded s'.
Proof.
  unfold guarded. destruct s as [st ins cy ir rt]. simpl.
  intros (H1 & H2 & H3 & H4) Hstep.
  destruct e as [| |ok| |]; simpl in Hstep;
    destruct st, ins, ir, cy, rt; simplify_eq; simpl;
    try destruct ok; simpl; intuition (try congruence; try lia).
Qed.

Lemma run_guarded events s s' : guarded s → run s events = Some s' → guarded s'.
Proof.
  revert s. induction events as [|e rest IH]; intros s Hs; simpl.
  - by intros [= <-].
  - destruct (step s e) as [s1|] eqn:E; [|done].
    apply IH. by eapply step_guarded.
Qed.

Lemma initial_guarded : guarded initial.
Proof. unfold guarded, initial. simpl. naive_solver lia. Qed.

(** The guard of [processRealtimeData] works: its body never runs twice
    at a time; and the first cycle is alone until the timer is installed. *)
Lemma realtime_runs_are_exclusive events s :
  run initial events = Some s →
  realtime s ≤ 1 ∧ (installed s = false → cycles s ≤ 1).
Proof.
  intros H. destruct (run_guarded _ _ _ initial_guarded H) as (H1 & H2 & H3 & _).
  split; [|done]. destruct (isRunning s); [rewrite H1|rewrite H2]; done || lia.
Qed.

(** C2 (the code departs from the claim).  Once the timer is installed,
    every tick starts a run of [processAutomation] whatever is in flight:
    after the start-up run has returned, two ticks without a run settling
    in between leave two cycles running.  No flag is consulted;
    [this.isRunning] guards [processRealtimeData] only. *)
Theorem interval_runs_overlap :
  ∃ s, run initial [Startup; Finish true; Tick; Tick] = Some s
       ∧ cycles s = 2.
Proof. eexists. split; reflexivity. Qed.
End SchedulerFacts.

(** * Further properties of the data grouper *)

Section GroupingMore.
Implicit Types (g : list (string * list (gmap string JSVal))) (k : string).

Lemma push_names g key x : (push g key x).*1 = g.*1.
Proof.
  induction g as [|[k' b] g IH]; [done|]. csimpl.
  destruct (String.eqb key k'); csimpl; [done|]. by rewrite IH.
Qed.

Lemma filed_push g key x b :
  bucket g key = Some b → filed (push g key x) = S (filed g).
Proof.
  unfold filed. induction g as [|[k' b'] g IH]; [done|]. simpl.
  destruct (String.eqb key k') eqn:E; simpl.
  - intros _. rewrite length_app. simpl. lia.
  - intros H. rewrite (IH H). lia.
Qed.

Lemma filed_app g key x : filed (g ++ [(key, [x])]) = S (filed g).
Proof.
  unfold filed. rewrite sum_list_with_app. simpl. lia.
Qed.

(** The loop of [groupByDepot] files or passes over every item, once, and
    never gives two groups the same name. *)
Lemma group_loop_counts dataArray g log g' log' :
  group_loop dataArray g log = (Ok g', log') →
  filed g' + length log' = filed g + length log + length dataArray
  ∧ (NoDup g.*1 → NoDup g'.*1).
Proof.
  revert g log. induction dataArray as [|item rest IH]; intros g log; simpl.
  - intros [= <- <-]. split; [lia|done].
  - destruct (truthy (prop (normalizeDataItem item) "DEPOT")); simpl.
    2:{ intros H. apply IH in H as [H1 H2]. rewrite length_app in H1.
        simpl in H1. split; [lia|done]. }
    destruct (ToString (prop (normalizeDataItem item) "DEPOT")) as [key|];
      [|done].
    unfold read. destruct (bucket g key) as [b|] eqn:Hb.
    + intros H. apply IH in H as [H1 H2].
      rewrite (filed_push _ _ _ _ Hb) in H1. rewrite push_names in H2.
      split; [lia|done].
    + destruct (inherited key); [done|].
      intros H. apply IH in H as [H1 H2]. rewrite filed_app in H1.
      split; [lia|]. intros Hn. apply H2.
      rewrite fmap_app. simpl. apply NoDup_app. split; [done|].
      split; [|apply NoDup_singleton].
      intros k Hk ->%list_elem_of_singleton.
      apply bucket_is_Some in Hk. rewrite Hb in Hk. by destruct Hk.
Qed.

End GroupingMore.


(** X2.  When [groupByDepot] returns, every item of the input is either
    filed in a group or passed over with a warning: the sizes of the groups
    and the number of warnings add up to the length of the input. *)
Theorem groupByDepot_loses_no_item
    (dataArray : list JSVal)
    (grouped : list (string * list (gmap string JSVal)))
    (log : list LogEntry) :
  groupByDepot dataArray = (Ok grouped, log) →
  filed grouped + length (warnings dataArray) = length dataArray.
Proof.
  unfold groupByDepot.
  destruct (group_loop dataArray [] []) as [[g'|e] log'] eqn:E; [|done].
  intros [= <- <-].
  destruct (group_loop_ok _ _ _ _ _ E) as [-> _].
  apply group_loop_counts in E as [E _]. simpl in E. done.
Qed.


Section IndexNames.




End IndexNames.


(** * Further properties of the popup classifier and the interpreter *)

Section InterpreterMore.
Context (sf : Surface).

(** X5.  [checkAndHandlePopup] returns a verdict whatever the driver does:
    it never throws, and it leaves the result files and the success list as
    they are. *)
Theorem popup_check_never_throws (w : World) :
  ∃ verdict w',
    checkAndHandlePopup sf w = (Ok verdict, w')
    ∧ failedFile w' = failedFile w
    ∧ successList w' = successList w
    ∧ successFile w' = successFile w.
Proof.
  destruct (never_throws_checkAndHandlePopup sf w) as (v & w' & E).
  exists v, w'. split; [done|].
  exact (keeps_ledger_checkAndHandlePopup sf _ _ _ E).
Qed.

(** X6.  A visible success popup decides the verdict: the message is read,
    the close button is clicked, and the error and warning containers are
    not looked at, whatever they show. *)
Theorem success_popup_is_reported_first (w : World) (el : Elem) :
  find sf (trace w) (Query "#popup-Success") = Ok (Some el) →
  display sf (trace w ++ [Query "#popup-Success"]) el = Ok "block" →
  ∃ w',
    checkAndHandlePopup sf w = (Ok (Some VSuccess), w')
    ∧ trace w'
      = trace w ++ [Query "#popup-Success"; ElemDisplay el;
                    EvalText "#spn_SuccessMessage";
                    Click "#btn_SuccessPopupClose"].
Proof.
  intros Hq Hd.
  unfold checkAndHandlePopup, check_popup at 1, try_catch, bind, or_default,
    try_catch, page_query, elem_display, page_eval_text, call, log, ret.
  rewrite Hq. simpl. rewrite Hd. simpl.
  destruct (eval_text sf _ "#spn_SuccessMessage"); simpl;
    destruct (act sf _ (Click "#btn_SuccessPopupClose")); simpl;
    eexists; (split; [reflexivity|]); simpl; by rewrite <- !app_assoc.
Qed.

(** X7.  When the inspection of the page throws at its first query, the
    error is logged and the verdict is [null], the same as for a page
    without popup. *)
Theorem popup_check_swallows_inspection_failure (w : World) (e : Err) :
  find sf (trace w) (Query "#popup-Success") = Throw e →
  checkAndHandlePopup sf w
  = (Ok None,
     set_logs (logs w ++ [LError "Error checking popup:"])
       (record (Query "#popup-Success") w)).
Proof.
  intros Hq.
  unfold checkAndHandlePopup, check_popup at 1, try_catch, bind, page_query,
    log, ret.
  by rewrite Hq.
Qed.

(** X8.  For each of the six operation kinds, when [page.$] finds no
    element for the selector, or throws, [executeAction] throws
    [Selector not found: <selector>] after that single query: nothing is
    waited for, clicked, filled or hovered. *)
Theorem action_on_missing_selector_throws (a : Action)
    (data : gmap string JSVal) (w : World) :
  type a ∈ known_kinds →
  (find sf (trace w) (Query (selector a)) = Ok None
   ∨ ∃ e, find sf (trace w) (Query (selector a)) = Throw e) →
  executeAction sf a data w
  = (Throw (Error ("Selector not found: " +:+ selector a)),
     record (Query (selector a)) w).
Proof.
  intros Hk Hq. unfold known_kinds in Hk.
  assert (Hr : require_visible sf (selector a) w
               = (Throw (Error ("Selector not found: " +:+ selector a)),
                  record (Query (selector a)) w)).
  { unfold require_visible, bind, or_default, try_catch, page_query, ret.
    by destruct Hq as [-> | [e ->]]. }
  unfold executeAction.
  repeat (apply elem_of_cons in Hk as [-> | Hk]; simpl;
          [unfold click_action, bind; first [by rewrite Hr|idtac] |]).
  all: try by apply elem_of_nil in Hk.
  unfold bind, or_default, try_catch, page_query, ret in *.
  by destruct Hq as [-> | [e ->]].
Qed.

(** X9.  An action of a kind the interpreter does not know is a logged
    no-op: no call is made on the page and nothing is thrown. *)
Theorem unknown_action_kind_is_a_logged_noop (a : Action)
    (data : gmap string JSVal) (w : World) :
  type a ∉ known_kinds →
  executeAction sf a data w
  = (Ok tt,
     set_logs (logs w ++ [LWarn ("Unknown action type: " +:+ type a) None]) w).
Proof.
  intros Hk. unfold known_kinds in Hk. unfold executeAction.
  repeat match goal with
         | |- context [String.eqb (type a) ?k] =>
             destruct (String.eqb_spec (type a) k) as [E|_];
             [exfalso; apply Hk; rewrite E; set_solver|]
         end.
  done.
Qed.

(** X10.  The three ways a click is delivered once the selector is found
    and visible: with [page.click(selector)] when [firstOnly] is not set;
    to the first match when [firstOnly] is set without [matchField]; and
    not at all, with the error [No elements found for selector], when
    [firstOnly] is set and [page.$$] returns no match. *)
Theorem click_is_delivered_by_selector_or_to_first_match (a : Action)
    (data : gmap string JSVal) (e0 : Elem) (w : World) :
  type a = "click" →
  find sf (trace w) (Query (selector a)) = Ok (Some e0) →
  act sf (trace w ++ [Query (selector a)]) (WaitForSelector (selector a))
  = None →
  let ready := trace w ++ [Query (selector a); WaitForSelector (selector a)] in
  (firstOnly a = false →
   ∃ r w', executeAction sf a data w = (r, w')
           ∧ clicks (trace w') = clicks (trace w) ++ [Click (selector a)])
  ∧ (firstOnly a = true → matchField a = None →
     ∀ first rest, find_all sf ready (selector a) = Ok (first :: rest) →
     ∃ r w', executeAction sf a data w = (r, w')
             ∧ clicks (trace w') = clicks (trace w) ++ [ElemClick first])
  ∧ (firstOnly a = true →
     find_all sf ready (selector a) = Ok [] →
     executeAction sf a data w
     = (Throw (Error ("No elements found for selector: " +:+ selector a)),
        set_trace (ready ++ [QueryAll (selector a)]) w)).
Proof.
  intros Hty Hq Hw ready. unfold executeAction. rewrite Hty. simpl.
  unfold click_action, require_visible, or_default, try_catch, bind,
    page_query, call, page_query_all, lift, ret, throw, print_url_after,
    page_url.
  rewrite Hq. simpl. rewrite Hw. simpl.
  assert (Hr : (trace w ++ [Query (selector a)])
               ++ [WaitForSelector (selector a)] = ready).
  { unfold ready. by rewrite <- app_assoc. }
  split; [|split].
  - intros ->. simpl.
    destruct (act sf _ (Click (selector a))); simpl.
    { eexists _, _. split; [done|]. simpl. rewrite !clicks_app. simpl.
      by rewrite !app_nil_r. }
    destruct (act sf _ WaitForLoadState); destruct (print_url a);
      eexists _, _; (split; [done|]); simpl; rewrite !clicks_app; simpl;
      by rewrite ?app_nil_r.
  - intros -> -> first rest Hall. simpl. rewrite Hr, Hall. simpl.
    destruct (act sf _ (ElemClick first)); simpl.
    { eexists _, _. split; [done|]. simpl. rewrite !clicks_app. simpl.
      by rewrite !app_nil_r. }
    destruct (act sf _ WaitForLoadState); destruct (print_url a);
      eexists _, _; (split; [done|]); simpl; rewrite !clicks_app; simpl;
      by rewrite ?app_nil_r.
  - intros -> Hall. simpl. rewrite Hr, Hall. simpl. f_equal.
    unfold record, set_trace. simpl. by rewrite Hr.
Qed.


(** X12.  Running an action never touches the result ledger: whatever the
    page does and whether or not the action throws, the failed file, the
    success list and the success file are as before. *)
Theorem action_never_touches_the_ledger (a : Action)
    (data : gmap string JSVal) (w : World) :
  let w' := (executeAction sf a data w).2 in
  failedFile w' = failedFile w
  ∧ successList w' = successList w
  ∧ successFile w' = successFile w.
Proof.
  simpl. destruct (executeAction sf a data w) as [r w'] eqn:E.
  exact (keeps_ledger_executeAction sf _ _ _ _ _ E).
Qed.

End InterpreterMore.

(** * Further properties of the ledger and of the session orchestrator *)

Section LedgerMore.
Context (sf : Surface).

Lemma same_value_zero_refl v : primitive v = true → same_value_zero v v = true.
Proof.
  destruct v as [| |b|z|s|l|o]; simpl; try done.
  - by destruct b.
  - intros _. apply Z.eqb_refl.
  - intros _. apply String.eqb_refl.
Qed.

Lemma has_app l1 l2 v : has (l1 ++ l2) v = has l1 v || has l2 v.
Proof. apply existsb_app. Qed.

Lemma has_elem l v : primitive v = true → v ∈ l → has l v = true.
Proof.
  intros Hp Hv. apply existsb_exists. exists v. split.
  - by apply list_elem_of_In.
  - by apply same_value_zero_refl.
Qed.



(** X14.  Reconciliation is idempotent: after [markRemainingAsFailed] has
    run on a readable failed file, a second run for the same depot appends
    nothing, since every item of the depot is by then in the failed file
    or in the success list. *)
Theorem reconciliation_twice_adds_nothing
    (grouped : list (string * list (gmap string JSVal))) (depot : string)
    (items : list (gmap string JSVal)) (w : World) (data : list FailedItem) :
  bucket grouped depot = Some items →
  failedFile w = Ok data →
  Forall (λ item, primitive (ro_number item) = true) items →
  let w' := (markRemainingAsFailed grouped depot w).2 in
  markRemainingAsFailed grouped depot w' = (Ok tt, w').
Proof.
  intros Hb Hf Hp.
  rewrite (markRemainingAsFailed_exact grouped depot items w data Hb Hf).
  simpl.
  set (new := filter (λ item, has (processed w data) (ro_number item) = false)
                items).
  set (data' := data ++ _).
  set (w' := set_failedFile (Ok data') w).
  rewrite (markRemainingAsFailed_exact grouped depot items w' data' Hb eq_refl).
  assert (Hall : filter (λ item, has (processed w' data') (ro_number item) = false)
                   items = []).
  { apply elem_of_nil_inv. intros item [Hh Hi]%list_elem_of_filter.
    assert (Hprim : primitive (ro_number item) = true).
    { by eapply (proj1 (Forall_forall _ _) Hp). }
    unfold processed, data' in Hh. simpl in Hh.
    rewrite fmap_app, !has_app in Hh.
    destruct (has (processed w data) (ro_number item)) eqn:Hold.
    - unfold processed in Hold. rewrite has_app in Hold.
      destruct (has (s_releaseOrderNumber <$> successList w) (ro_number item));
        destruct (has (f_releaseOrderNumber <$> data) (ro_number item));
        simpl in *; done.
    - match type of Hh with
      | context [has (f_releaseOrderNumber <$> (?f <$> new)) _] =>
          assert (Hin : has (f_releaseOrderNumber <$> (f <$> new))
                          (ro_number item) = true)
      end.
      { apply has_elem; [done|]. rewrite <- list_fmap_compose.
        apply list_elem_of_fmap. exists item. split; [done|].
        by apply list_elem_of_filter. }
      rewrite Hin in Hh. by rewrite !orb_true_r in Hh. }
  rewrite Hall. simpl. rewrite app_nil_r. done.
Qed.


End LedgerMore.

(** * Further properties of the depot loop *)

Section DepotLoopMore.
Context (sf : Surface).


(** X17.  Any other error out of [processDepot] fails the whole depot:
    with a readable failed file, every item of the depot is appended with
    the reason [Depot processing error: <message>], whether or not the item
    was recorded before; the context is closed and the loop goes on with
    the next depot. *)
Theorem depot_error_fails_every_item_of_the_depot
    (depot : string)
    (grouped : list (string * list (gmap string JSVal)))
    (accounts : gmap string JSVal) (site : SiteConfig)
    (items : list (gmap string JSVal)) (w w1 : World) (e : Err)
    (data : list FailedItem) :
  act sf (trace w) NewContext = None →
  act sf (trace w ++ [NewContext]) NewPage = None →
  processDepot sf depot grouped accounts site
    (record NewPage (record NewContext w)) = (Throw e, w1) →
  is_closed_error e = false →
  bucket grouped depot = Some items →
  failedFile w1 = Ok data →
  depot_iteration sf depot grouped accounts site w
  = (Ok Continue,
     set_trace (trace w1 ++ [CloseContext])
       (set_failedFile
          (Ok (data ++
               ((λ item, failed_item depot item
                           ("Depot processing error: " +:+ err_message e))
                  <$> items))) w1)).
Proof.
  intros Hc Hp Hd He Hb Hf. unfold depot_iteration.
  unfold bind at 1. unfold call at 1. rewrite Hc.
  unfold bind at 1. unfold call at 1. simpl. rewrite Hp.
  unfold finally, try_catch. unfold bind at 1. rewrite Hd, He.
  unfold bind at 1. unfold items_of. rewrite Hb. unfold ret at 1.
  unfold bind at 1.
  rewrite (for_each_append_all _ items w1 data Hf).
  unfold ret, close_context, or_default, try_catch, call. simpl.
  by destruct (act sf (trace w1) CloseContext).
Qed.

Lemma appends_keeps {A} (m : M A) : keeps_ledger m → appends 0 m.
Proof.
  intros Hm w data r w' Hf E. destruct (Hm _ _ _ E) as (H1 & H2 & _).
  exists [], []. rewrite H1, H2, !app_nil_r. done.
Qed.

Lemma appends_weaken {A} n n' (m : M A) : n ≤ n' → appends n m → appends n' m.
Proof.
  intros Hn Hm w data r w' Hf E.
  destruct (Hm _ _ _ _ Hf E) as (p & f & ? & ? & ?).
  exists p, f. repeat split; try done. lia.
Qed.

Lemma appends_bind {A B} n k (m : M A) (f : A → M B) :
  appends n m → (∀ a, appends k (f a)) → appends (n + k) (bind m f).
Proof.
  intros Hm Hf w data r w' Hd. unfold bind.
  destruct (m w) as [[a|e] w1] eqn:E.
  - destruct (Hm _ _ _ _ Hd E) as (p1 & f1 & Hs1 & Hf1 & Hl1). intros E2.
    destruct (Hf a _ _ _ _ Hf1 E2) as (p2 & f2 & Hs2 & Hf2 & Hl2).
    exists (p1 ++ p2), (f1 ++ f2). rewrite Hs2, Hs1, Hf2, !app_assoc.
    repeat split; try done. rewrite !length_app. lia.
  - intros [= <- <-].
    destruct (Hm _ _ _ _ Hd E) as (p1 & f1 & Hs1 & Hf1 & Hl1).
    exists p1, f1. repeat split; try done. lia.
Qed.

Lemma appends_after {A B} n (m : M A) (f : A → M B) :
  keeps_ledger m → (∀ a, appends n (f a)) → appends n (bind m f).
Proof.
  intros Hm Hf. apply (appends_weaken (0 + n)); [lia|].
  apply appends_bind; [by apply appends_keeps|done].
Qed.

Lemma appends_before {A B} n (m : M A) (f : A → M B) :
  appends n m → (∀ a, keeps_ledger (f a)) → appends n (bind m f).
Proof.
  intros Hm Hf. apply (appends_weaken (n + 0)); [lia|].
  apply appends_bind; [done|]. intros a. by apply appends_keeps.
Qed.

Lemma appends_ret_bind {A B} n (a : A) (f : A → M B) :
  appends n (f a) → appends n (bind (ret a) f).
Proof. intros H w data r w' Hf E. by eapply H. Qed.

Lemma keeps_ledger_login_actions acts loginData :
  keeps_ledger (login_actions sf acts loginData).
Proof.
  pose proof (keeps_ledger_executeAction sf).
  pose proof (keeps_ledger_pause sf).
  pose proof (keeps_ledger_checkAndHandlePopup sf).
  induction acts as [|action rest IH]; simpl.
  - apply keeps_ledger_ret.
  - case_bool_decide; [|done].
    repeat (apply keeps_ledger_bind; [done|intros]). done.
Qed.

(** X18.  [processDepot] only ever appends to the ledger, and at most one
    record for each item of the depot: with a readable failed file, and
    whether it returns or throws, the success list and the failed file
    afterwards are the ones before extended by no more records than the
    depot has items. *)
Theorem processDepot_appends_at_most_one_record_per_item
    (depot : string)
    (grouped : list (string * list (gmap string JSVal)))
    (accounts : gmap string JSVal) (site : SiteConfig)
    (items : list (gmap string JSVal)) (w : World) (data : list FailedItem) :
  bucket grouped depot = Some items →
  failedFile w = Ok data →
  let w' := (processDepot sf depot grouped accounts site w).2 in
  ∃ passed failed,
    successList w' = successList w ++ passed
    ∧ failedFile w' = Ok (data ++ failed)
    ∧ length passed + length failed ≤ length items.
Proof.
  intros Hb Hf. simpl.
  destruct (processDepot sf depot grouped accounts site w) as [r w'] eqn:E.
  simpl. revert w data r w' Hf E.
  change (appends (length items)
            (processDepot sf depot grouped accounts site)).
  unfold processDepot, items_of. rewrite Hb.
  destruct (truthy (prop accounts depot)); simpl.
  - apply appends_ret_bind.
    apply appends_after; [apply keeps_ledger_call|intros _].
    apply appends_after; [apply keeps_ledger_call|intros _].
    apply appends_after; [apply keeps_ledger_login_actions|intros _].
    apply appends_ret_bind.
    apply appends_before.
    + intros w data r w' Hf E.
      destruct (for_each_processReleaseOrder sf site depot (prop accounts depot)
                  items w data Hf) as (w2 & p & f & E2 & Hs & Hf2 & Hl).
      rewrite E2 in E. injection E as <- <-. exists p, f.
      repeat split; try done. lia.
    + intros _. apply keeps_ledger_bind; [apply keeps_ledger_call|intros _].
      apply keeps_ledger_bind; [apply keeps_ledger_executeAction|intros _].
      apply keeps_ledger_call.
  - apply appends_ret_bind. intros w data r w' Hf E.
    rewrite (for_each_append_all
               (λ item, failed_item depot item "No account configured for depot")
               items w data Hf) in E.
    injection E as <- <-. eexists [], _. simpl.
    split; [by rewrite app_nil_r|]. split; [done|].
    by rewrite length_fmap.
Qed.

End DepotLoopMore.

(** * Further properties of the cycle runner *)

Section CycleMore.
Context (sf : Surface).

Lemma failed_attempts_S k :
  failed_attempts (S k)
  = GetReleaseOrderData :: Sleep 10000 :: failed_attempts k.
Proof. done. Qed.

Lemma fetch_attempts_first_usable k n v w :
  k < n →
  (∀ i, i < k →
     usable (release_order_data sf (trace w ++ failed_attempts i)) = false) →
  usable (release_order_data sf (trace w ++ failed_attempts k)) = true →
  fetch_attempts sf n v w
  = (Ok (release_order_data sf (trace w ++ failed_attempts k)),
     set_trace (trace w ++ failed_attempts k ++ [GetReleaseOrderData]) w).
Proof.
  revert n v w. induction k as [|k IH]; intros n v w Hn Hfail Hok.
  - destruct n as [|n]; [lia|]. simpl in *. rewrite app_nil_r in Hok.
    unfold bind at 1. unfold getReleaseOrderData at 1. rewrite Hok.
    change (failed_attempts 0) with (@nil Call). by rewrite app_nil_r.
  - destruct n as [|[|n]]; [lia|lia|].
    assert (H0 := Hfail 0 ltac:(lia)). simpl in H0. rewrite app_nil_r in H0.
    change (fetch_attempts sf (S (S n)) v w) with
      ((testDataArr <- getReleaseOrderData sf ;;
        if usable testDataArr then ret testDataArr
        else sleep 10000 ;; fetch_attempts sf (S n) testDataArr) w).
    unfold bind at 1. unfold getReleaseOrderData at 1. rewrite H0.
    unfold bind at 1. unfold sleep at 1.
    set (w2 := record (Sleep 10000) (record GetReleaseOrderData w)).
    assert (Ht : ∀ l, trace w2 ++ l
                      = trace w ++ GetReleaseOrderData :: Sleep 10000 :: l).
    { intros l. unfold w2. simpl. by rewrite <- !app_assoc. }
    rewrite (IH (S n) _ w2); [|lia| |].
    + rewrite failed_attempts_S. rewrite !Ht. f_equal.
    + intros i Hi. rewrite Ht, <- failed_attempts_S. apply Hfail. lia.
    + by rewrite Ht, <- failed_attempts_S.
Qed.

(** X19.  [fetchDataWithRetry] stops at the first usable answer: when the
    first [k] answers are not usable and the next one is, with
    [k < maxRetries], that answer is returned after [k + 1] calls and [k]
    delays, and no further call is made. *)
Theorem fetch_stops_at_first_usable_answer (k maxRetries : nat) (w : World) :
  k < maxRetries →
  (∀ i, i < k →
     usable (release_order_data sf (trace w ++ failed_attempts i)) = false) →
  usable (release_order_data sf (trace w ++ failed_attempts k)) = true →
  fetchDataWithRetry sf maxRetries w
  = (Ok (release_order_data sf (trace w ++ failed_attempts k)),
     set_trace (trace w ++ failed_attempts k ++ [GetReleaseOrderData]) w).
Proof. apply fetch_attempts_first_usable. Qed.



(** X21.  A cycle without data is a no-op: when no answer of the API client
    is usable, [processAutomation] returns after its three attempts, and
    when the first answer carries an empty array it returns after that one
    call; in both cases no browsing context is opened and the result files
    and the success list are left as they are. *)
Theorem cycle_without_data_does_nothing (accounts : gmap string JSVal)
    (site : SiteConfig) (w : World) :
  ((∀ t, usable (release_order_data sf t) = false) →
   processAutomation sf accounts site w
   = (Ok tt, set_trace (trace w ++ retry_calls 3) w))
  ∧ (∀ o : gmap string JSVal,
       release_order_data sf (trace w) = VObj o →
       o !! "data" = Some (VArr []) →
       processAutomation sf accounts site w
       = (Ok tt, record GetReleaseOrderData w)).
Proof.
  split.
  - intros Hu. unfold processAutomation, bind at 1.
    destruct (fetch_attempts_exhausted sf 3 VNull w Hu) as (r & E & Hr).
    unfold fetchDataWithRetry. rewrite E.
    assert (usable r = false) as ->; [|done].
    destruct Hr as [[? _]|[t ->]]; [done|apply Hu].
  - intros o Ho Hd. unfold processAutomation, bind at 1.
    unfold fetchDataWithRetry. simpl.
    assert (Hf : field (VObj o) "data" = VArr []).
    { unfold field, prop. by rewrite Hd. }
    unfold bind at 1. unfold getReleaseOrderData at 1. rewrite Ho.
    unfold usable. rewrite Hf.
    change (truthy (VObj o) && truthy (VArr [])) with true.
    unfold ret at 1. cbv beta iota. by rewrite Hf.
Qed.

(** X22.  A cycle whose grouping throws is aborted before anything else
    happens: when the first answer is usable and [groupByDepot] throws on
    its records, [processAutomation] throws that error; the result files
    are not initialised and no browsing context is opened. *)
Theorem cycle_is_aborted_when_grouping_throws (accounts : gmap string JSVal)
    (site : SiteConfig) (w : World) (first : JSVal) (more : list JSVal)
    (e : Err) (lines : list LogEntry) :
  usable (release_order_data sf (trace w)) = true →
  field (release_order_data sf (trace w)) "data" = VArr (first :: more) →
  groupByDepot (first :: more) = (Throw e, lines) →
  processAutomation sf accounts site w
  = (Throw e, set_logs (logs w ++ lines) (record GetReleaseOrderData w)).
Proof.
  intros Hu Hd Hg. unfold processAutomation, bind at 1.
  unfold fetchDataWithRetry. simpl.
  unfold bind at 1. unfold getReleaseOrderData at 1. rewrite Hu.
  unfold ret at 1. rewrite Hu. simpl. rewrite Hd. simpl.
  unfold bind at 1. unfold group, bind, lift. simpl. rewrite Hg. done.
Qed.

End CycleMore.

(** * Further properties of the scheduler *)

Section SchedulerMore.
Import Scheduler.

Lemma step_after_failed_startup s e s' :
  started s = true ∧ installed s = false ∧ cycles s = 0 →
  step s e = Some s' →
  started s' = true ∧ installed s' = false ∧ cycles s' = 0.
Proof.
  destruct s as [st ins cy ir rt]. simpl. intros (-> & -> & ->).
  destruct e as [| |ok| |]; simpl; try done.
  - destruct ir; intros [= <-]; done.
  - destruct rt; [done|]. by intros [= <-].
Qed.

Lemma run_after_failed_startup events s s' :
  started s = true ∧ installed s = false ∧ cycles s = 0 →
  run s events = Some s' →
  started s' = true ∧ installed s' = false ∧ cycles s' = 0.
Proof.
  revert s. induction events as [|e rest IH]; intros s Hs; simpl.
  - by intros [= <-].
  - destruct (step s e) as [s1|] eqn:E; [|done].
    apply IH. by eapply step_after_failed_startup.
Qed.

(** X23.  When the first run of [processAutomation] throws, [main] rejects
    before [setupAutoRun] is reached: the interval timer is never
    installed, and whatever happens afterwards no cycle runs again. *)
Theorem failed_first_cycle_disables_the_schedule (events : list Event)
    (s : State) :
  run initial (Startup :: Finish false :: events) = Some s →
  installed s = false ∧ cycles s = 0.
Proof.
  simpl. intros H.
  apply run_after_failed_startup in H; [tauto|done].
Qed.

(** X24.  The guard of [processRealtimeData] holds against every
    interleaving: its body is never in flight twice, and [this.isRunning]
    is set exactly while the body runs. *)
Theorem file_watcher_runs_never_overlap (events : list Event) (s : State) :
  run initial events = Some s →
  realtime s ≤ 1 ∧ (isRunning s = true ↔ realtime s = 1).
Proof.
  intros H. destruct (run_guarded _ _ _ initial_guarded H) as (H1 & H2 & _).
  destruct (isRunning s).
  - rewrite H1 by done. split; [lia|done].
  - rewrite H2 by done. split; [lia|]. split; [done|lia].
Qed.

End SchedulerMore.

(** * Properties of value resolution *)

Lemma split_not_nil sep s : split sep s ≠ [].
Proof.
  destruct s as [|c s]; simpl; [done|].
  destruct (Ascii.eqb c sep); [done|]. by destruct (split sep s).
Qed.

Lemma split_app sep p q :
  split sep (p +:+ String sep q) = split sep p ++ split sep q.
Proof.
  induction p as [|c p IH]; simpl.
  - by rewrite Ascii.eqb_refl.
  - destruct (Ascii.eqb c sep); [by rewrite IH|].
    rewrite IH. destruct (split sep p) as [|part parts] eqn:E; [|done].
    by destruct (split_not_nil sep p).
Qed.

Lemma split_free sep k : free_of sep k = true → split sep k = [k].
Proof.
  induction k as [|c k IH]; simpl; [done|].
  intros [Hc Hk]%andb_prop. apply negb_true_iff in Hc. rewrite Hc.
  by rewrite IH.
Qed.

Lemma foldl_member_None keys :
  foldl (λ current key, current ≫= λ v, member v key) None keys = None.
Proof. by induction keys. Qed.

Lemma foldl_member_nullish v keys :
  v = VUndef ∨ v = VNull →
  foldl (λ current key, current ≫= λ v, member v key) (Some v) keys
  = Some (match keys with [] => v | _ => VUndef end).
Proof.
  revert v. induction keys as [|k keys IH]; intros v Hv; [done|].
  simpl. assert (member v k = Some VUndef) as -> by (by destruct Hv as [-> | ->]).
  rewrite IH by auto. by destruct keys.
Qed.

Lemma getNestedValue_nullish v path :
  v = VUndef ∨ v = VNull → getNestedValue v path = Some VUndef.
Proof.
  intros Hv. unfold getNestedValue. rewrite foldl_member_nullish by done.
  destruct (split "." path) eqn:E; [|done]. by destruct (split_not_nil "." path).
Qed.

Lemma getNestedValue_path obj p q :
  getNestedValue obj (p +:+ String "." q)
  = getNestedValue obj p ≫= λ v, getNestedValue v q.
Proof.
  unfold getNestedValue. rewrite split_app, foldl_app.
  destruct (foldl _ (Some obj) (split "." p)) as [v|]; [done|].
  apply foldl_member_None.
Qed.

(** X25.  Paths compose: resolving [p.q] on a value is resolving [p] and
    then [q] on the result, for all paths [p] and [q], empty keys
    included. *)
Theorem getNestedValue_composes (obj : JSVal) (p q : string) :
  getNestedValue obj (p +:+ "." +:+ q)
  = getNestedValue obj p ≫= λ v, getNestedValue v q.
Proof. apply getNestedValue_path. Qed.

Lemma resolveValue_data path (data : gmap string JSVal) :
  resolveValue (VStr ("data." +:+ path)) data = getNestedValue (VObj data) path.
Proof. unfold resolveValue. simpl. by destruct path. Qed.

(** X26.  [resolveValue] reads an own field of the data context by name,
    and a missing field is tolerated: [data.k] is the field [k], undefined
    when the record has none, [data.k.rest] continues from that field, and
    it is undefined, not an error, when the field is missing or null. *)
Theorem resolveValue_reads_own_field (data : gmap string JSVal) (k : string) :
  free_of "." k = true →
  is_Some (data !! k) ∨ inherited k = false →
  resolveValue (VStr ("data." +:+ k)) data = Some (prop data k)
  ∧ (∀ rest, resolveValue (VStr ("data." +:+ k +:+ "." +:+ rest)) data
             = getNestedValue (prop data k) rest)
  ∧ (∀ rest, prop data k = VUndef ∨ prop data k = VNull →
             resolveValue (VStr ("data." +:+ k +:+ "." +:+ rest)) data
             = Some VUndef).
Proof.
  intros Hk Hown.
  assert (H1 : getNestedValue (VObj data) k = Some (prop data k)).
  { unfold getNestedValue. rewrite split_free by done. simpl. unfold prop.
    destruct (data !! k) as [v|] eqn:E; [done|].
    destruct Hown as [[? ?]| ->]; done. }
  assert (H2 : ∀ rest, resolveValue (VStr ("data." +:+ k +:+ "." +:+ rest)) data
                       = getNestedValue (prop data k) rest).
  { intros rest. rewrite resolveValue_data.
    change (k +:+ "." +:+ rest) with (k +:+ String "." rest).
    by rewrite getNestedValue_path, H1. }
  split; [by rewrite resolveValue_data|]. split; [done|].
  intros rest Hv. rewrite H2. by apply getNestedValue_nullish.
Qed.

(** * Properties of the batch runner *)

Section BatchFacts.
Context (sf : Surface).
Context (evaluateCondition : list Call → string → gmap string JSVal → bool).
Context (random : list Call → N).

Lemma keeps_ledger_skips c data : keeps_ledger (skips evaluateCondition c data).
Proof.
  intros w r w'. unfold skips.
  destruct (condition c) as [e|]; [destruct (String.eqb e "")|];
    by intros [= <- <-].
Qed.

Lemma keeps_ledger_getRandomDelay : keeps_ledger (getRandomDelay random).
Proof. by intros w r w' [= <- <-]. Qed.

Lemma keeps_ledger_executeActions actions data :
  keeps_ledger (executeActions sf evaluateCondition random actions data).
Proof.
  induction actions as [|c rest IH]; simpl; [apply keeps_ledger_ret|].
  apply keeps_ledger_bind; [|done].
  apply keeps_ledger_try_catch; [|intros; apply keeps_ledger_log].
  apply keeps_ledger_bind; [apply keeps_ledger_skips|].
  intros [|]; [apply keeps_ledger_ret|].
  apply keeps_ledger_bind; [apply keeps_ledger_executeAction|]. intros _.
  destruct (delay (action c) =? 0)%N; [|apply keeps_ledger_call].
  apply keeps_ledger_bind; [apply keeps_ledger_getRandomDelay|].
  intros; apply keeps_ledger_call.
Qed.

Lemma never_throws_executeActions actions data :
  never_throws (executeActions sf evaluateCondition random actions data).
Proof.
  induction actions as [|c rest IH]; simpl; [apply never_throws_ret|].
  apply never_throws_bind; [|done].
  apply never_throws_try_catch. intros; apply never_throws_log.
Qed.

(** X27.  A batch of actions never throws: [executeActions] runs every
    action of the list in its own try block, so whatever the conditions
    evaluate to and whatever the driver does it returns, and it leaves the
    result files and the success list as they are. *)
Theorem batch_of_actions_never_throws (actions : list Conditional)
    (data : gmap string JSVal) (w : World) :
  ∃ w',
    executeActions sf evaluateCondition random actions data w = (Ok tt, w')
    ∧ failedFile w' = failedFile w
    ∧ successList w' = successList w
    ∧ successFile w' = successFile w.
Proof.
  destruct (never_throws_executeActions actions data w) as ([] & w' & E).
  exists w'. split; [done|].
  exact (keeps_ledger_executeActions _ _ _ _ _ E).
Qed.

End BatchFacts.

(** * Properties of the API client *)

Section ClientFacts.
Import Api.
Context (server : list Request → Request → Response).

Lemma granted_truthy r t rt :
  granted r = Some (t, rt) → truthy t = true ∧ truthy rt = true.
Proof.
  destruct r as [data|status]; simpl; [|done].
  destruct (truthy data); simpl; [|done].
  destruct (truthy (field data "token")) eqn:E1; simpl; [|done].
  destruct (truthy (field data "reqtime")) eqn:E2; simpl; [|done].
  by intros [= <- <-].
Qed.

Lemma getToken_requests s :
  requests (getToken server s).2 = requests s ++ [TokenRequest].
Proof.
  unfold getToken.
  by destruct (granted (server (requests s) TokenRequest)) as [[t r]|].
Qed.

Lemma getToken_success s s' :
  getToken server s = (true, s') →
  truthy (token s') = true ∧ truthy (reqtime s') = true.
Proof.
  unfold getToken.
  destruct (granted (server (requests s) TokenRequest)) as [[t r]|] eqn:E;
    [|done].
  intros [= <-]. simpl. by eapply granted_truthy.
Qed.

(** X28.  Without a token, a failed token request ends the call: when
    [this.token] or [this.reqtime] is not set and the token request is
    rejected or answered without token and reqtime, [getReleaseOrderData]
    returns null after that one request; no data request is sent. *)
Theorem no_data_request_without_token (fuel : nat) (s : Client) :
  truthy (token s) && truthy (reqtime s) = false →
  granted (server (requests s) TokenRequest) = None →
  getReleaseOrderData server (S fuel) s = (Some VNull, sent TokenRequest s).
Proof.
  intros Hs Hg. simpl.
  assert (negb (truthy (token s)) || negb (truthy (reqtime s)) = true) as ->.
  { by destruct (truthy (token s)), (truthy (reqtime s)). }
  unfold getToken. by rewrite Hg.
Qed.

(** X29.  The client never sends a data request without credentials:
    every data request that [getReleaseOrderData] adds carries a truthy
    token and a truthy reqtime, whatever the server answers and however
    deep the retries go; the requests sent before stay as they are. *)
Theorem data_requests_carry_credentials (fuel : nat) (s : Client) :
  ∃ added,
    requests (getReleaseOrderData server fuel s).2 = requests s ++ added
    ∧ ∀ t rt, DataRequest t rt ∈ added →
        truthy t = true ∧ truthy rt = true.
Proof.
  revert s. induction fuel as [|fuel IH]; intros s.
  - exists []. simpl. split; [by rewrite app_nil_r|]. by intros ?? ?%elem_of_nil.
  - simpl.
    set (first := if negb (truthy (token s)) || negb (truthy (reqtime s))
                  then getToken server s else (true, s)).
    assert (Hfirst : ∃ pre, requests first.2 = requests s ++ pre
              ∧ (∀ t rt, DataRequest t rt ∈ pre → False)
              ∧ (first.1 = true →
                 truthy (token first.2) = true
                 ∧ truthy (reqtime first.2) = true)).
    { unfold first.
      destruct (negb (truthy (token s)) || negb (truthy (reqtime s))) eqn:E.
      - exists [TokenRequest]. split; [apply getToken_requests|].
        split; [by intros ?? [=]%list_elem_of_singleton|].
        intros H. apply (getToken_success s).
        destruct (getToken server s) as [ok ?]. simpl in H. by subst ok.
      - exists []. simpl. split; [by rewrite app_nil_r|].
        split; [by intros ?? ?%elem_of_nil|]. intros _.
        by destruct (truthy (token s)), (truthy (reqtime s)). }
    destruct first as [ready s1]. simpl in Hfirst.
    destruct Hfirst as (pre & Hpre & Hno & Hcred).
    destruct ready; simpl.
    2:{ exists pre. split; [done|]. intros t rt Hin. by destruct (Hno t rt). }
    destruct (Hcred eq_refl) as [Ht Hr].
    assert (Hone : ∀ t rt, DataRequest t rt ∈ pre ++ [DataRequest (token s1) (reqtime s1)] →
                     truthy t = true ∧ truthy rt = true).
    { intros t rt [Hin|[= -> ->]%list_elem_of_singleton]%elem_of_app; [|done].
      by destruct (Hno t rt). }
    destruct (server (requests s1) (DataRequest (token s1) (reqtime s1)))
      as [data|status].
    { eexists. split; [|exact Hone]. simpl. by rewrite Hpre, <- app_assoc. }
    destruct (expired status).
    2:{ eexists. split; [|exact Hone]. simpl. by rewrite Hpre, <- app_assoc. }
    set (s2 := sent (DataRequest (token s1) (reqtime s1)) s1).
    assert (Htok := getToken_requests s2).
    destruct (getToken server s2) as [ok s3]. simpl in Htok.
    assert (H3 : requests s3
                 = requests s ++ pre ++ [DataRequest (token s1) (reqtime s1)]
                   ++ [TokenRequest]).
    { rewrite Htok. unfold s2. simpl. by rewrite Hpre, <- !app_assoc. }
    destruct ok.
    + destruct (IH s3) as (more & Hmore & Hcm).
      eexists. split; [by rewrite Hmore, H3, <- !app_assoc|].
      intros t rt. rewrite !elem_of_app.
      intros [Hin|[Hin|[Hin|Hin]]].
      * by destruct (Hno t rt).
      * apply list_elem_of_singleton in Hin as [= -> ->]. done.
      * by apply list_elem_of_singleton in Hin.
      * by apply Hcm.
    + eexists. split; [exact H3|].
      intros t rt. rewrite !elem_of_app.
      intros [Hin|[Hin|Hin]].
      * by destruct (Hno t rt).
      * apply list_elem_of_singleton in Hin as [= -> ->]. done.
      * by apply list_elem_of_singleton in Hin.
Qed.

(** X30.  The retry on an expired token has no bound: against a server
    that grants every token request and rejects every data request with
    401 or 403, [getReleaseOrderData] calls itself again at every depth,
    so it never returns, and it sends at least two requests per level. *)
Theorem expired_token_retry_is_unbounded (fuel : nat) (s : Client) :
  (∀ sent_before, is_Some (granted (server sent_before TokenRequest))) →
  (∀ sent_before t rt, ∃ status,
     server sent_before (DataRequest t rt) = Reject status
     ∧ expired status = true) →
  ∃ s', getReleaseOrderData server fuel s = (None, s')
        ∧ length (requests s) + 2 * fuel ≤ length (requests s').
Proof.
  intros Hgrant Hreject. revert s.
  induction fuel as [|fuel IH]; intros s.
  - exists s. simpl. split; [done|lia].
  - simpl.
    set (first := if negb (truthy (token s)) || negb (truthy (reqtime s))
                  then getToken server s else (true, s)).
    assert (Hfirst : first.1 = true
                     ∧ length (requests s) ≤ length (requests first.2)).
    { unfold first.
      destruct (negb (truthy (token s)) || negb (truthy (reqtime s)));
        [|done].
      rewrite getToken_requests, length_app. split; [|lia].
      unfold getToken. by destruct (Hgrant (requests s)) as [[t r] ->]. }
    destruct first as [ready s1]. simpl in Hfirst. destruct Hfirst as [-> Hlen].
    simpl.
    destruct (Hreject (requests s1) (token s1) (reqtime s1))
      as (status & -> & ->).
    set (s2 := sent (DataRequest (token s1) (reqtime s1)) s1).
    assert (Htok := getToken_requests s2).
    assert (Hok : (getToken server s2).1 = true).
    { unfold getToken. by destruct (Hgrant (requests s2)) as [[t r] ->]. }
    destruct (getToken server s2) as [ok s3]. simpl in Htok, Hok. subst ok.
    destruct (IH s3) as (s' & -> & Hs'). exists s'. split; [done|].
    rewrite Htok in Hs'. unfold s2 in Hs'. simpl in Hs'.
    rewrite !length_app in Hs'. simpl in Hs'. lia.
Qed.

End ClientFacts.

(** * The further properties on concrete inputs *)

Section Samples.
Import Scenario Cases.


(** X2 on the mixed data array: three filed, two passed over. *)
Lemma mixed_records_are_all_accounted_for :
  groupByDepot mixed = (Ok mixed_groups, mixed_log)
  ∧ filed mixed_groups + length (warnings mixed) = length mixed.
Proof.
  assert (H : groupByDepot mixed = (Ok mixed_groups, mixed_log))
    by (vm_compute; reflexivity).
  split; [exact H|].
  exact (groupByDepot_loses_no_item mixed mixed_groups mixed_log H).
Defined.



(** X6 on a page that shows the success and the error popup. *)
Lemma success_popup_hides_error_popup :
  find success_popup (trace start) (Query "#popup-Success") = Ok (Some 4)
  ∧ display success_popup (trace start ++ [Query "#popup-Success"]) 4
    = Ok "block"
  ∧ ∃ w',
      checkAndHandlePopup success_popup start = (Ok (Some VSuccess), w')
      ∧ trace w'
        = trace start ++ [Query "#popup-Success"; ElemDisplay 4;
                          EvalText "#spn_SuccessMessage";
                          Click "#btn_SuccessPopupClose"].
Proof.
  assert (H1 : find success_popup (trace start) (Query "#popup-Success")
               = Ok (Some 4)) by reflexivity.
  assert (H2 : display success_popup (trace start ++ [Query "#popup-Success"]) 4
               = Ok "block") by reflexivity.
  split; [exact H1|]. split; [exact H2|].
  exact (success_popup_is_reported_first success_popup start 4 H1 H2).
Defined.

(** X7 on a page that is gone. *)
Lemma popup_check_on_closed_page :
  find gone (trace start) (Query "#popup-Success")
  = Throw (Error "Target closed")
  ∧ checkAndHandlePopup gone start
    = (Ok None,
       set_logs (logs start ++ [LError "Error checking popup:"])
         (record (Query "#popup-Success") start)).
Proof.
  assert (H : find gone (trace start) (Query "#popup-Success")
              = Throw (Error "Target closed")) by reflexivity.
  split; [exact H|].
  exact (popup_check_swallows_inspection_failure gone start _ H).
Defined.

(** X8: the order form is missing. *)
Lemma input_without_order_form :
  type enter_number ∈ known_kinds
  ∧ find (page (λ _, None) VNull) (trace start)
      (Query (selector enter_number)) = Ok None
  ∧ executeAction (page (λ _, None) VNull) enter_number
      (order "D1" "RO1" 7) start
    = (Throw (Error ("Selector not found: " +:+ selector enter_number)),
       record (Query (selector enter_number)) start).
Proof.
  assert (H1 : type enter_number ∈ known_kinds).
  { refine (bool_decide_unpack _ _). vm_compute. exact I. }
  assert (H2 : find (page (λ _, None) VNull) (trace start)
                 (Query (selector enter_number)) = Ok None) by reflexivity.
  split; [exact H1|]. split; [exact H2|].
  exact (action_on_missing_selector_throws (page (λ _, None) VNull)
           enter_number (order "D1" "RO1" 7) start H1 (or_introl H2)).
Defined.

(** X9 on an action of kind [drag]. *)
Lemma drag_is_not_an_action :
  (type drag ∉ known_kinds)
  ∧ executeAction unsettled drag (order "D1" "RO1" 7) start
    = (Ok tt,
       set_logs (logs start ++ [LWarn ("Unknown action type: " +:+ type drag)
                                  None]) start).
Proof.
  assert (H : type drag ∉ known_kinds).
  { refine (bool_decide_unpack _ _). vm_compute. exact I. }
  split; [exact H|].
  exact (unknown_action_kind_is_a_logged_noop unsettled drag
           (order "D1" "RO1" 7) start H).
Defined.

(** X10 on a plain click. *)
Lemma search_button_is_clicked_by_selector :
  type search = "click"
  ∧ find unsettled (trace start) (Query (selector search)) = Ok (Some 0)
  ∧ act unsettled (trace start ++ [Query (selector search)])
      (WaitForSelector (selector search)) = None
  ∧ firstOnly search = false
  ∧ ∃ r w', executeAction unsettled search (order "D1" "RO1" 7) start = (r, w')
            ∧ clicks (trace w')
              = clicks (trace start) ++ [Click (selector search)].
Proof.
  assert (H1 : type search = "click") by reflexivity.
  assert (H2 : find unsettled (trace start) (Query (selector search))
               = Ok (Some 0)) by reflexivity.
  assert (H3 : act unsettled (trace start ++ [Query (selector search)])
                 (WaitForSelector (selector search)) = None) by reflexivity.
  assert (H4 : firstOnly search = false) by reflexivity.
  split; [exact H1|]. split; [exact H2|]. split; [exact H3|].
  split; [exact H4|].
  exact (proj1 (click_is_delivered_by_selector_or_to_first_match unsettled
                  search (order "D1" "RO1" 7) 0 start H1 H2 H3) H4).
Defined.



(** X14 on five orders of which two are in the success list. *)
Lemma second_reconciliation_of_five :
  bucket [("D1", five)] "D1" = Some five
  ∧ failedFile two_done = Ok []
  ∧ Forall (λ item, primitive (ro_number item) = true) five
  ∧ length (default [] (match failedFile
                                (markRemainingAsFailed [("D1", five)] "D1"
                                   two_done).2 with
                        | Ok l => Some l | Throw _ => None end)) = 3
  ∧ markRemainingAsFailed [("D1", five)] "D1"
      (markRemainingAsFailed [("D1", five)] "D1" two_done).2
    = (Ok tt, (markRemainingAsFailed [("D1", five)] "D1" two_done).2).
Proof.
  assert (H1 : bucket [("D1", five)] "D1" = Some five) by reflexivity.
  assert (H2 : failedFile two_done = Ok []) by reflexivity.
  assert (H3 : Forall (λ item, primitive (ro_number item) = true) five).
  { repeat constructor. }
  split; [exact H1|]. split; [exact H2|]. split; [exact H3|].
  split; [by vm_compute|].
  exact (reconciliation_twice_adds_nothing [("D1", five)] "D1" five two_done
           [] H1 H2 H3).
Defined.



(** X17: the logout button is missing, so the depot fails after its one
    order has passed. *)
Lemma missing_logout_fails_the_depot :
  ∃ e w1,
    processDepot no_logout "D1" single accounts site
      (record NewPage (record NewContext start)) = (Throw e, w1)
    ∧ is_closed_error e = false
    ∧ depot_iteration no_logout "D1" single accounts site start
      = (Ok Continue,
         set_trace (trace w1 ++ [CloseContext])
           (set_failedFile
              (Ok ([] ++
                   ((λ item, failed_item "D1" item
                               ("Depot processing error: " +:+ err_message e))
                      <$> [order "D1" "RO1" 7]))) w1))
    ∧ err_message e = "Selector not found: .btn.btn-logout.logout-btn"
    ∧ s_releaseOrderNumber <$> successList w1 = [VStr "RO1"].
Proof.
  set (run := processDepot no_logout "D1" single accounts site
                (record NewPage (record NewContext start))).
  set (e := Error "Selector not found: .btn.btn-logout.logout-btn").
  assert (H1 : act no_logout (trace start) NewContext = None) by reflexivity.
  assert (H2 : act no_logout (trace start ++ [NewContext]) NewPage = None)
    by reflexivity.
  assert (H3 : run = (Throw e, run.2)) by (vm_compute; reflexivity).
  assert (H4 : is_closed_error e = false) by (vm_compute; reflexivity).
  assert (H5 : bucket single "D1" = Some [order "D1" "RO1" 7]) by reflexivity.
  assert (H6 : failedFile run.2 = Ok []) by (vm_compute; reflexivity).
  exists e, run.2. split; [exact H3|]. split; [exact H4|].
  split; [|split; by vm_compute].
  exact (depot_error_fails_every_item_of_the_depot no_logout "D1" single
           accounts site _ start run.2 e [] H1 H2 H3 H4 H5 H6).
Defined.

(** X18 on a depot of one order. *)
Lemma one_order_gives_at_most_one_record :
  bucket single "D1" = Some [order "D1" "RO1" 7]
  ∧ failedFile start = Ok []
  ∧ ∃ passed failed,
      successList (processDepot no_logout "D1" single accounts site start).2
      = successList start ++ passed
      ∧ failedFile (processDepot no_logout "D1" single accounts site start).2
        = Ok ([] ++ failed)
      ∧ length passed + length failed ≤ length [order "D1" "RO1" 7].
Proof.
  assert (H1 : bucket single "D1" = Some [order "D1" "RO1" 7]) by reflexivity.
  assert (H2 : failedFile start = Ok []) by reflexivity.
  split; [exact H1|]. split; [exact H2|].
  exact (processDepot_appends_at_most_one_record_per_item no_logout "D1"
           single accounts site _ start [] H1 H2).
Defined.

(** X19 on a client whose third answer is the first usable one, with five
    attempts allowed. *)
Lemma fetch_of_five_stops_at_third :
  2 < 5
  ∧ (∀ i, i < 2 →
       usable (release_order_data flaky (trace start ++ failed_attempts i))
       = false)
  ∧ usable (release_order_data flaky (trace start ++ failed_attempts 2)) = true
  ∧ fetchDataWithRetry flaky 5 start
    = (Ok (release_order_data flaky (trace start ++ failed_attempts 2)),
       set_trace (trace start ++ failed_attempts 2 ++ [GetReleaseOrderData])
         start).
Proof.
  assert (H1 : 2 < 5) by lia.
  assert (H2 : ∀ i, i < 2 →
            usable (release_order_data flaky (trace start ++ failed_attempts i))
            = false).
  { intros [|[|i]] Hi; [reflexivity|reflexivity|lia]. }
  assert (H3 : usable (release_order_data flaky
                         (trace start ++ failed_attempts 2)) = true)
    by reflexivity.
  split; [exact H1|]. split; [exact H2|]. split; [exact H3|].
  exact (fetch_stops_at_first_usable_answer flaky 2 5 start H1 H2 H3).
Defined.

(** X21 on a client whose answers have no [data]. *)
Lemma cycle_without_data_sample :
  (∀ t, usable (release_order_data no_data t) = false)
  ∧ processAutomation no_data accounts site start
    = (Ok tt, set_trace (trace start ++ retry_calls 3) start).
Proof.
  assert (H : ∀ t, usable (release_order_data no_data t) = false)
    by (intros t; reflexivity).
  split; [exact H|].
  exact (proj1 (cycle_without_data_does_nothing no_data accounts site start) H).
Defined.

(** X22 on a record whose depot is named [constructor]. *)
Lemma cycle_over_depot_named_constructor :
  usable (release_order_data poisoned (trace start)) = true
  ∧ field (release_order_data poisoned (trace start)) "data"
    = VArr [VObj {["DEPOT" := VStr "constructor"]}]
  ∧ groupByDepot [VObj {["DEPOT" := VStr "constructor"]}]
    = (Throw (TypeError "grouped[depot].push is not a function"), [])
  ∧ processAutomation poisoned accounts site start
    = (Throw (TypeError "grouped[depot].push is not a function"),
       set_logs (logs start ++ []) (record GetReleaseOrderData start)).
Proof.
  assert (H1 : usable (release_order_data poisoned (trace start)) = true)
    by reflexivity.
  assert (H2 : field (release_order_data poisoned (trace start)) "data"
               = VArr [VObj {["DEPOT" := VStr "constructor"]}])
    by reflexivity.
  assert (H3 : groupByDepot [VObj {["DEPOT" := VStr "constructor"]}]
               = (Throw (TypeError "grouped[depot].push is not a function"), []))
    by (vm_compute; reflexivity).
  split; [exact H1|]. split; [exact H2|]. split; [exact H3|].
  exact (cycle_is_aborted_when_grouping_throws poisoned accounts site start
           _ _ _ _ H1 H2 H3).
Defined.

(** X23: after a failed first cycle a tick cannot occur; a data change
    still can. *)
Lemma schedule_after_failed_first_cycle :
  Scheduler.run Scheduler.initial
    [Scheduler.Startup; Scheduler.Finish false; Scheduler.Tick] = None
  ∧ Scheduler.run Scheduler.initial
      [Scheduler.Startup; Scheduler.Finish false; Scheduler.DataChange]
    = Some (Scheduler.mkState true false 0 true 1)
  ∧ Scheduler.installed (Scheduler.mkState true false 0 true 1) = false
  ∧ Scheduler.cycles (Scheduler.mkState true false 0 true 1) = 0.
Proof.
  assert (H : Scheduler.run Scheduler.initial
                [Scheduler.Startup; Scheduler.Finish false;
                 Scheduler.DataChange]
              = Some (Scheduler.mkState true false 0 true 1)) by reflexivity.
  split; [reflexivity|]. split; [exact H|].
  exact (failed_first_cycle_disables_the_schedule [Scheduler.DataChange] _ H).
Defined.

(** X24: a second data change during a run is dropped. *)
Lemma second_data_change_is_dropped :
  Scheduler.run Scheduler.initial
    [Scheduler.DataChange; Scheduler.DataChange]
  = Some (Scheduler.mkState false false 0 true 1)
  ∧ Scheduler.realtime (Scheduler.mkState false false 0 true 1) ≤ 1
  ∧ (Scheduler.isRunning (Scheduler.mkState false false 0 true 1) = true
     ↔ Scheduler.realtime (Scheduler.mkState false false 0 true 1) = 1).
Proof.
  assert (H : Scheduler.run Scheduler.initial
                [Scheduler.DataChange; Scheduler.DataChange]
              = Some (Scheduler.mkState false false 0 true 1)) by reflexivity.
  split; [exact H|].
  exact (file_watcher_runs_never_overlap _ _ H).
Defined.

(** X26 on a nested record, with a field that is [null] and one that is
    missing. *)
Lemma resolve_in_nested_record :
  free_of "." "order" = true
  ∧ is_Some (nested !! "order")
  ∧ resolveValue (VStr "data.order") nested
    = Some (VObj {["number" := VStr "RO1"]})
  ∧ resolveValue (VStr "data.order.number") nested = Some (VStr "RO1")
  ∧ resolveValue (VStr "data.note.text") nested = Some VUndef
  ∧ resolveValue (VStr "data.depot.code") nested = Some VUndef.
Proof.
  assert (H1 : free_of "." "order" = true) by reflexivity.
  assert (H2 : is_Some (nested !! "order")) by (by eexists).
  split; [exact H1|]. split; [exact H2|].
  split; [exact (proj1 (resolveValue_reads_own_field nested "order" H1
                          (or_introl H2)))|].
  split; [exact (proj1 (proj2 (resolveValue_reads_own_field nested "order" H1
                                 (or_introl H2))) "number")|].
  split.
  - exact (proj2 (proj2 (resolveValue_reads_own_field nested "note" eq_refl
                           (or_intror eq_refl))) "text" (or_intror eq_refl)).
  - exact (proj2 (proj2 (resolveValue_reads_own_field nested "depot" eq_refl
                           (or_intror eq_refl))) "code" (or_introl eq_refl)).
Defined.

(** X28 on a server that is down. *)
Lemma signed_out_client_against_server_down :
  truthy (Api.token signed_out) && truthy (Api.reqtime signed_out) = false
  ∧ Api.granted (down (Api.requests signed_out) Api.TokenRequest) = None
  ∧ Api.getReleaseOrderData down 3 signed_out
    = (Some VNull, Api.sent Api.TokenRequest signed_out).
Proof.
  assert (H1 : truthy (Api.token signed_out)
               && truthy (Api.reqtime signed_out) = false) by reflexivity.
  assert (H2 : Api.granted (down (Api.requests signed_out) Api.TokenRequest)
               = None) by reflexivity.
  split; [exact H1|]. split; [exact H2|].
  exact (no_data_request_without_token down 2 signed_out H1 H2).
Defined.

(** X30 on a server that rejects every data request with 401. *)
Lemma unauthorized_server_is_retried_forever :
  (∀ sent_before, is_Some (Api.granted (unauthorized sent_before Api.TokenRequest)))
  ∧ (∀ sent_before t rt, ∃ status,
       unauthorized sent_before (Api.DataRequest t rt) = Api.Reject status
       ∧ Api.expired status = true)
  ∧ ∃ s', Api.getReleaseOrderData unauthorized 100 signed_out = (None, s')
          ∧ length (Api.requests signed_out) + 2 * 100
            ≤ length (Api.requests s').
Proof.
  assert (H1 : ∀ sent_before,
            is_Some (Api.granted (unauthorized sent_before Api.TokenRequest))).
  { intros t. by eexists. }
  assert (H2 : ∀ sent_before t rt, ∃ status,
            unauthorized sent_before (Api.DataRequest t rt) = Api.Reject status
            ∧ Api.expired status = true).
  { intros t tok rt. by exists (Some 401%N). }
  split; [exact H1|]. split; [exact H2|].
  exact (expired_token_retry_is_unbounded unauthorized 100 signed_out H1 H2).
Defined.

End Samples.
